(** * Bumblebee [bbrun.c]: child-process bookkeeping

    A shallow embedding of [src/bbrun.c].  The C program keeps the PIDs of
    the children it forked in a hand-rolled linked list on the C heap
    ([struct pidlist], global [pidlist_start]), reaps children from a
    [SIGCHLD] handler and stops them with [kill].

    The embedding keeps the pointers: the heap is a finite map from
    addresses to nodes, [NULL] is address [0], reading through a null or a
    freed pointer is a fault, and so is the overflow of an [int].  The
    operating system is a part of the state: the children that run, the
    terminated children not yet waited for, the results [fork] and [execvp]
    will give, and the schedule of the events that happen while the program
    sleeps or blocks.  Every log line and system call is recorded in a
    trace.

    What the model fixes about the system:
    - [malloc] succeeds and never hands out an address twice;
    - a signal reaches the program while it sleeps in [usleep] or blocks in
      [wait], not between two of its statements;
    - a handler that has run ends the [usleep] it interrupted;
    - [wait] collects the terminated children oldest first. *)

From stdpp Require Import base option list gmap strings numbers.
From Stdlib Require Import ZArith Lia.

Local Open Scope Z_scope.

(** ** Constants of the C library *)

Definition SIGKILL : Z := 9.
Definition SIGTERM : Z := 15.
Definition SIGCHLD : Z := 17.
Definition LOG_ERR : Z := 3.
Definition LOG_INFO : Z := 6.
Definition LOG_DEBUG : Z := 7.
Definition INT_MAX : Z := 2147483647.

(** ** The C heap *)

(** A pointer is an address; the null pointer is address 0. *)
Abbreviation ptr := N (only parsing).
Definition NULL : ptr := 0%N.

(** [struct pidlist]. *)
Record pidlist := mk_pidlist {
  PID : Z;
  prev : ptr;
  next : ptr
}.

(** ** The operating system, as far as the program can see it *)

Inductive os_event :=
| ChildExits (p : Z)   (* child p terminates and becomes waitable *)
| Sigchld              (* a SIGCHLD is delivered to the process *)
| Tick.                (* the sleep interval is over *)

Inductive log_arg :=
| ArgStr (s : option string)   (* a char*, None for a null pointer *)
| ArgInt (i : Z)
| ArgStrerror (errno : Z).     (* strerror(errno) *)

(** The four format strings the program hands to [bb_log]. *)
Inductive message :=
| MsgTerminated    (* Process with PID %i terminated. *)
| MsgStarted       (* Process %s started, PID %i. *)
| MsgForkFailed    (* Process %s could not be started. fork() failed. *)
| MsgExecFailed.   (* Error running %s: %s *)

(** What the program does to the outside: log lines and system calls. *)
Inductive action :=
| Log (level : Z) (msg : message) (args : list log_arg)
| SysSigaction (signum : Z)
| SysFork
| SysSetenv (name : string) (value : string) (overwrite : Z)
| SysExecvp (file : option string) (argv : list string)
| SysWait (ret : Z)
| SysKill (pid : Z) (sig : Z)
| SysUsleep (usec : Z)
| SysExit (code : Z).

Record os_state := mk_os {
  sa_sigchld : bool;        (* is childsig_handler installed for SIGCHLD *)
  children : list Z;        (* children still running *)
  zombies : list Z;         (* terminated children, oldest first *)
  sched : list os_event;    (* what will happen while the program waits *)
  fork_q : list Z;          (* the results the next calls of fork() give *)
  exec_err : option Z       (* errno of a failing execvp, None if it succeeds *)
}.

Record world := mk_world {
  mem : gmap N pidlist;     (* allocated nodes *)
  brk : N;                  (* the next address malloc hands out *)
  pidlist_start : ptr;      (* the global of that name *)
  handler_set : Z;          (* the global of that name *)
  os : os_state;
  trace : list action       (* most recent first *)
}.

Definition set_mem (m : gmap N pidlist) (w : world) : world :=
  mk_world m (brk w) (pidlist_start w) (handler_set w) (os w) (trace w).
Definition set_brk (b : N) (w : world) : world :=
  mk_world (mem w) b (pidlist_start w) (handler_set w) (os w) (trace w).
Definition set_pidlist_start (p : ptr) (w : world) : world :=
  mk_world (mem w) (brk w) p (handler_set w) (os w) (trace w).
Definition set_handler_set (h : Z) (w : world) : world :=
  mk_world (mem w) (brk w) (pidlist_start w) h (os w) (trace w).
Definition set_os (o : os_state) (w : world) : world :=
  mk_world (mem w) (brk w) (pidlist_start w) (handler_set w) o (trace w).
Definition emit (a : action) (w : world) : world :=
  mk_world (mem w) (brk w) (pidlist_start w) (handler_set w) (os w) (a :: trace w).

Definition set_sa_sigchld (b : bool) (o : os_state) : os_state :=
  mk_os b (children o) (zombies o) (sched o) (fork_q o) (exec_err o).
Definition set_children (l : list Z) (o : os_state) : os_state :=
  mk_os (sa_sigchld o) l (zombies o) (sched o) (fork_q o) (exec_err o).
Definition set_zombies (l : list Z) (o : os_state) : os_state :=
  mk_os (sa_sigchld o) (children o) l (sched o) (fork_q o) (exec_err o).
Definition set_sched (l : list os_event) (o : os_state) : os_state :=
  mk_os (sa_sigchld o) (children o) (zombies o) l (fork_q o) (exec_err o).
Definition set_fork_q (l : list Z) (o : os_state) : os_state :=
  mk_os (sa_sigchld o) (children o) (zombies o) (sched o) l (exec_err o).

(** The state of a freshly started program: nothing allocated, both
    globals zero, no handler installed. *)
Definition boot (o : os_state) : world :=
  mk_world ∅ 1%N NULL 0 o [].

(** ** Outcomes of running a piece of the program *)

Inductive fault :=
| NullDeref       (* read or write through a null pointer *)
| UseAfterFree    (* read or write through a pointer to a freed node *)
| IntOverflow.    (* signed overflow of an int *)

Inductive outcome (A : Type) :=
| Ret (v : A) (w : world)       (* returned to its caller *)
| Exited (code : Z) (w : world) (* called exit(): the process is gone *)
| Replaced (w : world)          (* execvp succeeded: another program runs *)
| Waiting (w : world)           (* still asleep or blocked when the schedule ends *)
| Fault (f : fault) (w : world) (* undefined behaviour *)
| OutOfFuel (w : world).        (* a loop bound of the model was too small *)
Arguments Ret {A} v w.
Arguments Exited {A} code w.
Arguments Replaced {A} w.
Arguments Waiting {A} w.
Arguments Fault {A} f w.
Arguments OutOfFuel {A} w.

(** The program is written in the monad of state and outcome. *)
Definition M (A : Type) : Type := world → outcome A.

Global Instance M_ret : MRet M := λ A v w, Ret v w.
Global Instance M_bind : MBind M := λ A B k c w,
  match c w with
  | Ret v w => k v w
  | Exited code w => Exited code w
  | Replaced w => Replaced w
  | Waiting w => Waiting w
  | Fault f w => Fault f w
  | OutOfFuel w => OutOfFuel w
  end.

Definition gets {A} (f : world → A) : M A := λ w, Ret (f w) w.
Definition modify (f : world → world) : M unit := λ w, Ret tt (f w).
Definition raise {A} (f : fault) : M A := λ w, Fault f w.

(** ** Memory access *)

(** Reading [*p]. *)
Definition load (p : ptr) : M pidlist :=
  if decide (p = NULL) then raise NullDeref
  else m ← gets mem;
       match m !! p with
       | Some n => mret n
       | None => raise UseAfterFree
       end.

(** Writing one field of [*p], given as the change [f] of the node. *)
Definition store (p : ptr) (f : pidlist → pidlist) : M unit :=
  n ← load p;
  modify (λ w, set_mem (<[p := f n]> (mem w)) w).

(** [malloc(sizeof (struct pidlist))] always succeeds here and hands out an
    address never used before.  The block is entered in the heap at once;
    the three assignments that follow it in [pidlist_add] overwrite every
    field before any is read. *)
Definition malloc : M ptr :=
  p ← gets brk;
  modify (λ w, set_mem (<[p := mk_pidlist 0 NULL NULL]> (mem w))
                 (set_brk (N.succ p) w));;
  mret p.

Definition free (p : ptr) : M unit :=
  if decide (p = NULL) then mret tt
  else m ← gets mem;
       match m !! p with
       | Some _ => modify (set_mem (delete p m))
       | None => raise UseAfterFree
       end.

(** ** The registry: [pidlist_add], [pidlist_remove], [pidlist_find] *)

Definition pidlist_add (newpid : Z) : M unit :=
  curr ← malloc;
  store curr (λ n, mk_pidlist newpid (prev n) (next n));;
  store curr (λ n, mk_pidlist (PID n) NULL (next n));;
  start ← gets pidlist_start;
  store curr (λ n, mk_pidlist (PID n) (prev n)
                     (if decide (start = NULL) then NULL else start));;
  modify (set_pidlist_start curr).

(** What [pidlist_remove] does with a node whose PID matches. *)
Definition unlink (curr : ptr) : M unit :=
  n ← load curr;
  (if decide (next n = NULL) then mret tt
   else store curr (λ n, mk_pidlist (PID n) (prev n) (prev n)));;
  n ← load curr;
  (if decide (prev n = NULL)
   then modify (set_pidlist_start (next n))
   else store curr (λ n, mk_pidlist (PID n) (next n) (next n)));;
  free curr.

Fixpoint pidlist_remove_loop (fuel : nat) (curr : ptr) (rempid : Z) : M unit :=
  if decide (curr = NULL) then mret tt
  else match fuel with
       | O => OutOfFuel
       | S fuel =>
           n ← load curr;
           let next_iter := next n in
           (if decide (PID n = rempid) then unlink curr else mret tt);;
           pidlist_remove_loop fuel next_iter rempid
       end.

(** The loop visits an allocated node in every round, so it needs no more
    rounds than there are nodes. *)
Definition pidlist_remove (rempid : Z) : M unit :=
  fuel ← gets (λ w, size (mem w));
  start ← gets pidlist_start;
  pidlist_remove_loop fuel start rempid.

Fixpoint pidlist_find_loop (fuel : nat) (curr : ptr) (findpid : Z) : M Z :=
  if decide (curr = NULL) then mret 0
  else match fuel with
       | O => OutOfFuel
       | S fuel =>
           n ← load curr;
           if decide (PID n = findpid) then mret 1
           else pidlist_find_loop fuel (next n) findpid
       end.

Definition pidlist_find (findpid : Z) : M Z :=
  fuel ← gets (λ w, size (mem w));
  start ← gets pidlist_start;
  pidlist_find_loop fuel start findpid.

(** ** System calls *)

Definition bb_log (level : Z) (msg : message) (args : list log_arg) : M unit :=
  modify (emit (Log level msg args)).

Definition modify_os (f : os_state → os_state) : M unit :=
  modify (λ w, set_os (f (os w)) w).

(** Child [p] terminates: it stops running and waits to be reaped. *)
Definition child_exits (p : Z) (o : os_state) : os_state :=
  if decide (p ∈ children o)
  then set_zombies (zombies o ++ [p]) (set_children (filter (λ q, q ≠ p) (children o)) o)
  else o.

(** A [wait] that found nothing to reap sleeps through the schedule until
    one of the children terminates. *)
Fixpoint wait_blocked (evs : list os_event) (kids : list Z)
  : option (Z * list os_event) :=
  match evs with
  | [] => None
  | ChildExits p :: evs' =>
      if decide (p ∈ kids) then Some (p, evs') else wait_blocked evs' kids
  | _ :: evs' => wait_blocked evs' kids
  end.

(** [wait(0)]: the oldest terminated child if there is one; [-1] if the
    process has no children at all; otherwise it blocks. *)
Definition wait0 : M Z := λ w,
  match zombies (os w) with
  | z :: zs => Ret z (emit (SysWait z) (set_os (set_zombies zs (os w)) w))
  | [] =>
      match children (os w) with
      | [] => Ret (-1) (emit (SysWait (-1)) w)
      | kids =>
          match wait_blocked (sched (os w)) kids with
          | Some (p, evs') =>
              Ret p (emit (SysWait p)
                       (set_os (set_sched evs'
                                  (set_children (filter (λ q, q ≠ p) kids) (os w))) w))
          | None => Waiting (set_os (set_sched [] (os w)) w)
          end
      end
  end.

Definition sigaction (signum : Z) : M unit :=
  modify_os (set_sa_sigchld true);;
  modify (emit (SysSigaction signum)).

(** [fork()]: the next result the system has in store, [-1] when it has
    none.  A positive result is a new child of this process; with result
    [0] the program continues as that child, which has no children. *)
Definition fork : M Z :=
  q ← gets (λ w, fork_q (os w));
  let ret := hd (-1) q in
  modify_os (set_fork_q (tl q));;
  modify (emit SysFork);;
  (if decide (ret = 0) then modify_os (λ o, set_zombies [] (set_children [] o))
   else if decide (ret > 0) then modify_os (λ o, set_children (children o ++ [ret]) o)
   else mret tt);;
  mret ret.

Definition setenv (name value : string) (overwrite : Z) : M unit :=
  modify (emit (SysSetenv name value overwrite)).

(** [execvp] returns only when it fails. *)
Definition execvp (file : option string) (argv : list string) : M Z := λ w,
  match exec_err (os w) with
  | None => Replaced (emit (SysExecvp file argv) w)
  | Some _ => Ret (-1) (emit (SysExecvp file argv) w)
  end.

Definition errno : M Z := gets (λ w, default 0 (exec_err (os w))).

Definition exit {A} (code : Z) : M A := λ w, Exited code (emit (SysExit code) w).

Definition kill (pid sig : Z) : M unit := modify (emit (SysKill pid sig)).

(** ** The reaper: [childsig_handler], [check_handler] *)

Definition childsig_handler (signum : Z) : M unit :=
  if decide (signum ≠ SIGCHLD) then mret tt
  else
    ret ← wait0;
    bb_log LOG_DEBUG MsgTerminated [ArgInt ret];;
    pidlist_remove ret.

Definition check_handler : M unit :=
  hs ← gets handler_set;
  if decide (hs = 0) then
    sigaction SIGCHLD;;
    modify (set_handler_set 1)
  else mret tt.

(** [usleep]: events of the schedule happen until the interval is over; a
    SIGCHLD that runs the handler interrupts the sleep.  Without a handler
    the signal is ignored. *)
Fixpoint usleep_run (evs : list os_event) : M unit :=
  match evs with
  | [] => λ w, Waiting (set_os (set_sched [] (os w)) w)
  | Tick :: evs' => modify_os (set_sched evs')
  | ChildExits p :: evs' => modify_os (child_exits p);; usleep_run evs'
  | Sigchld :: evs' =>
      installed ← gets (λ w, sa_sigchld (os w));
      if installed : bool then
        modify_os (set_sched evs');;
        childsig_handler SIGCHLD
      else usleep_run evs'
  end.

Definition usleep (usec : Z) : M unit :=
  modify (emit (SysUsleep usec));;
  evs ← gets (λ w, sched (os w));
  usleep_run evs.

(** ** The launcher: [bb_run_exec], [bb_run_fork], [bb_run_fork_ld],
    [bb_run_fork_wait] *)

(** [argv] is the list of the strings before the terminating null pointer;
    [argv[0]] of an empty list is that null pointer. *)
Definition bb_run_exec (argv : list string) : M unit :=
  execvp (head argv) argv;;
  e ← errno;
  bb_log LOG_ERR MsgExecFailed [ArgStr (head argv); ArgStrerror e];;
  exit 42.

Definition bb_is_running (proc : Z) : M Z := pidlist_find proc.

Definition bb_run_fork (argv : list string) : M Z :=
  check_handler;;
  ret ← fork;
  if decide (ret = 0) then
    bb_run_exec argv;;
    mret ret
  else if decide (ret > 0) then
    bb_log LOG_INFO MsgStarted [ArgStr (head argv); ArgInt ret];;
    pidlist_add ret;;
    mret ret
  else
    bb_log LOG_ERR MsgForkFailed [ArgStr (head argv)];;
    mret 0.

Definition bb_run_fork_ld (argv : list string) (ldpath : string) : M Z :=
  check_handler;;
  ret ← fork;
  if decide (ret = 0) then
    setenv "LD_LIBRARY_PATH" ldpath 1;;
    bb_run_exec argv;;
    mret ret
  else if decide (ret > 0) then
    bb_log LOG_INFO MsgStarted [ArgStr (head argv); ArgInt ret];;
    pidlist_add ret;;
    mret ret
  else
    bb_log LOG_ERR MsgForkFailed [ArgStr (head argv)];;
    mret 0.

Fixpoint bb_run_fork_wait_loop (fuel : nat) (ret : Z) : M unit :=
  r ← bb_is_running ret;
  if decide (r = 0) then mret tt
  else match fuel with
       | O => OutOfFuel
       | S fuel => usleep 1000000;; bb_run_fork_wait_loop fuel ret
       end.

(** Every sleep uses up an event of the schedule, which bounds the loop. *)
Definition bb_run_fork_wait (argv : list string) : M unit :=
  check_handler;;
  ret ← fork;
  if decide (ret = 0) then
    bb_run_exec argv
  else if decide (ret > 0) then
    bb_log LOG_INFO MsgStarted [ArgStr (head argv); ArgInt ret];;
    pidlist_add ret;;
    fuel ← gets (λ w, S (length (sched (os w))));
    bb_run_fork_wait_loop fuel ret
  else
    bb_log LOG_ERR MsgForkFailed [ArgStr (head argv)].

(** ** The terminator: [bb_stop], [bb_stop_wait], [bb_stop_all] *)

Definition bb_stop (proc : Z) : M unit :=
  r ← bb_is_running proc;
  if decide (r = 0) then mret tt else kill proc SIGTERM.

(** [++i] on an [int]. *)
Definition incr (i : Z) : M Z :=
  if decide (i = INT_MAX) then raise IntOverflow else mret (i + 1).

Fixpoint bb_stop_wait_loop (fuel : nat) (proc : Z) (i : Z) : M unit :=
  r ← bb_is_running proc;
  if decide (r = 0) then mret tt
  else match fuel with
       | O => OutOfFuel
       | S fuel =>
           i ← incr i;
           (if decide (i < 10) then kill proc SIGTERM else kill proc SIGKILL);;
           usleep 1000000;;
           bb_stop_wait_loop fuel proc i
       end.

Definition bb_stop_wait (proc : Z) : M unit :=
  fuel ← gets (λ w, S (length (sched (os w))));
  bb_stop_wait_loop fuel proc 0.

(** The loop of [bb_stop_all]; [nxt] is the local [next].  The successor is
    read from the head of the list as it is now, [curr->PID] from the node
    the cursor holds. *)
Fixpoint bb_stop_all_loop (fuel : nat) (nxt : ptr) : M unit :=
  if decide (nxt = NULL) then mret tt
  else match fuel with
       | O => OutOfFuel
       | S fuel =>
           let curr := nxt in
           start ← gets pidlist_start;
           h ← load start;
           let nxt := next h in
           c ← load curr;
           bb_stop_wait (PID c);;
           bb_stop_all_loop fuel nxt
       end.

Definition bb_stop_all : M unit :=
  fuel ← gets (λ w, S (size (mem w)));
  start ← gets pidlist_start;
  bb_stop_all_loop fuel start.

(** ** Runs of the registry alone *)

Inductive reg_op :=
| Add (pid : Z)
| Remove (pid : Z).

Fixpoint run_ops (ops : list reg_op) : M unit :=
  match ops with
  | [] => mret tt
  | Add p :: ops => pidlist_add p;; run_ops ops
  | Remove p :: ops => pidlist_remove p;; run_ops ops
  end.

(** The state an outcome ends in. *)
Definition world_of {A} (r : outcome A) : world :=
  match r with
  | Ret _ w | Exited _ w | Replaced w | Waiting w | Fault _ w | OutOfFuel w => w
  end.

(** ** Well-formed registries *)

(** [chain m p b l]: following [next] from [p] in the heap [m] one meets
    nodes holding the PIDs [l], in this order, and then [NULL].  Every node
    of the chain has a null [prev], and the addresses decrease along the
    chain and stay below [b]: [pidlist_add] puts the newest node first. *)
Fixpoint chain (m : gmap N pidlist) (p : ptr) (b : N) (l : list Z) : Prop :=
  match l with
  | [] => p = NULL
  | pid :: l' =>
      p ≠ NULL ∧ (p < b)%N ∧
      match m !! p with
      | Some n => PID n = pid ∧ prev n = NULL ∧ chain m (next n) p l'
      | None => False
      end
  end.

Definition node_ok (b : N) (a : N) (n : pidlist) : Prop :=
  a ≠ NULL ∧ (a < b)%N ∧ prev n = NULL.

(** The invariant of the registry, [l] being the PIDs it tracks: the list
    hangs together, and whatever else is allocated (nodes the program lost
    track of) lies below [brk] and has a null [prev] too. *)
Definition registry_ok (w : world) (l : list Z) : Prop :=
  brk w ≠ NULL ∧
  map_Forall (node_ok (brk w)) (mem w) ∧
  chain (mem w) (pidlist_start w) (brk w) l.

Global Instance chain_dec m p b l : Decision (chain m p b l).
Proof.
  revert p b. induction l as [|pid l IH]; intros p b; simpl.
  - apply _.
  - destruct (m !! p); apply _.
Defined.

Global Instance node_ok_dec b a n : Decision (node_ok b a n).
Proof. unfold node_ok. apply _. Defined.

Global Instance registry_ok_dec w l : Decision (registry_ok w l).
Proof. unfold registry_ok. apply _. Defined.

(** What the registry operations leave alone: the world without the heap
    and the list head. *)
Definition frame (w : world) : world :=
  set_mem ∅ (set_brk 0%N (set_pidlist_start NULL w)).

(** The state [pidlist_add] leaves. *)
Definition added (newpid : Z) (w : world) : world :=
  set_pidlist_start (brk w)
    (set_mem (<[brk w := mk_pidlist newpid NULL (pidlist_start w)]> (mem w))
       (set_brk (N.succ (brk w)) w)).

(** The signals sent so far, most recent first. *)
Definition kills (tr : list action) : list (Z * Z) :=
  omap (λ a, match a with SysKill p s => Some (p, s) | _ => None end) tr.

(** The PIDs the launcher has announced, and those the reaper has collected. *)
Definition launched (tr : list action) : list Z :=
  omap (λ a, match a with
             | Log _ MsgStarted [_; ArgInt p] => Some p
             | _ => None
             end) tr.
Definition reaped (tr : list action) : list Z :=
  omap (λ a, match a with SysWait p => Some p | _ => None end) tr.

(** ** The specification's reading of some operations *)

(** The escalation policy in the specification's words: attempts 1 to 9
    send the graceful signal, attempt 10 and later ones the forceful one. *)
Definition escalation (attempt : Z) : Z :=
  if decide (attempt ≤ 9) then SIGTERM else SIGKILL.

(** The specification's [snapshot]: the tracked PIDs, first to last. *)
Fixpoint snapshot_loop (fuel : nat) (curr : ptr) : M (list Z) :=
  if decide (curr = NULL) then mret []
  else match fuel with
       | O => OutOfFuel
       | S fuel =>
           n ← load curr;
           l ← snapshot_loop fuel (next n);
           mret (PID n :: l)
       end.

Definition snapshot : M (list Z) :=
  fuel ← gets (λ w, size (mem w));
  start ← gets pidlist_start;
  snapshot_loop fuel start.

Fixpoint for_each (l : list Z) (f : Z → M unit) : M unit :=
  match l with
  | [] => mret tt
  | p :: l => f p;; for_each l f
  end.

(** The specification's [stop_all]: snapshot first, then [stop_wait] on
    each PID of the snapshot. *)
Definition spec_stop_all : M unit :=
  l ← snapshot;
  for_each l bb_stop_wait.


(** ** Scenarios *)

(** Two launches that succeed, giving children 1001 and 1002; [evs] is what
    happens afterwards. *)
Definition two_children (evs : list os_event) : world :=
  world_of ((bb_run_fork ["sleep"; "2"];; bb_run_fork ["sleep"; "3"])
              (boot (mk_os false [] [] evs [1001; 1002] None))).

(** One launch. *)
Definition one_child (evs : list os_event) : world :=
  world_of (bb_run_fork ["sleep"; "2"]
              (boot (mk_os false [] [] evs [1001] None))).


(** ** Properties of computations *)

(** [c] moves every world to one related to it by [R], however it ends. *)
Definition respects (R : relation world) {A} (c : M A) : Prop :=
  ∀ w, R w (world_of (c w)).

Definition same_frame : relation world := λ w w', frame w' = frame w.
Definition same_kills : relation world :=
  λ w w', kills (trace w') = kills (trace w).
Definition same_world : relation world := λ w w', w' = w.

(** The only exit status [c] can end the process with is 42. *)
Definition exits_42 {A} (c : M A) : Prop :=
  ∀ w code w', c w = Exited code w' → code = 42.

(** [c] returns or is still waiting, and nothing else. *)
Definition returns_or_waits {A} (r : outcome A)
    (PRet : A → world → Prop) (PWait : world → Prop) : Prop :=
  match r with
  | Ret v w => PRet v w
  | Waiting w => PWait w
  | _ => False
  end.

(** The registry of [w'] is, bit for bit, the registry of [w]. *)
Definition same_registry (w w' : world) : Prop :=
  mem w' = mem w ∧ brk w' = brk w ∧ pidlist_start w' = pidlist_start w.

(** The registry tracks [l] or nothing. *)
Definition tracks_or_empty (l : list Z) (w : world) : Prop :=
  registry_ok w l ∨ registry_ok w [].

(** ** Further notions *)

(** The nodes of the list, as pairs of address and PID, first to last. *)
Fixpoint chain_nodes (m : gmap N pidlist) (p : ptr) (l : list Z) : list (N * Z) :=
  match l with
  | [] => []
  | pid :: l' =>
      (p, pid) :: match m !! p with
                  | Some n => chain_nodes m (next n) l'
                  | None => []
                  end
  end.

(** The signals [sigaction] was called for, most recent first. *)
Definition sigactions (tr : list action) : list Z :=
  omap (λ a, match a with SysSigaction s => Some s | _ => None end) tr.

(** The calls of [fork] so far. *)
Definition forks (tr : list action) : nat :=
  length (omap (λ a, match a with SysFork => Some tt | _ => None end) tr).

(** A session: what a user of the file calls, one call after the other.
    [CallSleep] is the caller asleep, the time in which signals arrive. *)
Inductive api_call :=
| CallFork (argv : list string)
| CallForkLd (argv : list string) (ldpath : string)
| CallForkWait (argv : list string)
| CallIsRunning (proc : Z)
| CallStop (proc : Z)
| CallStopWait (proc : Z)
| CallSleep (usec : Z).

Definition run_call (c : api_call) : M unit :=
  match c with
  | CallFork argv => bb_run_fork argv;; mret tt
  | CallForkLd argv ldpath => bb_run_fork_ld argv ldpath;; mret tt
  | CallForkWait argv => bb_run_fork_wait argv
  | CallIsRunning proc => bb_is_running proc;; mret tt
  | CallStop proc => bb_stop proc
  | CallStopWait proc => bb_stop_wait proc
  | CallSleep usec => usleep usec
  end.

Fixpoint run_calls (cs : list api_call) : M unit :=
  match cs with
  | [] => mret tt
  | c :: cs => run_call c;; run_calls cs
  end.

(** What a session keeps true of the process that makes the calls: the
    registry is well formed and tracks [l]; the tracked PIDs are positive
    and belong to children that run or wait to be reaped; and the handler
    is installed exactly when [handler_set] says so, by one call of
    [sigaction]. *)
Definition session_inv (w : world) (l : list Z) : Prop :=
  registry_ok w l ∧
  (∀ p, p ∈ l → 0 < p) ∧
  (∀ p, p ∈ l → p ∈ children (os w) ∨ p ∈ zombies (os w)) ∧
  (handler_set w = 0 ∨ handler_set w = 1) ∧
  (handler_set w = 1 → sa_sigchld (os w) = true) ∧
  sigactions (trace w) = (if decide (handler_set w = 0) then [] else [SIGCHLD]).

(** How a session may end: back at the caller or still waiting, with the
    invariant; as the forked child, by [exit (42)] or in another program;
    or in the overflow of the counter of [bb_stop_wait]. *)
Definition session_end {A} (r : outcome A) : Prop :=
  match r with
  | Ret _ w | Waiting w => ∃ l, session_inv w l
  | Exited code w => code = 42 ∧ ∃ l, registry_ok w l
  | Replaced w => ∃ l, registry_ok w l
  | Fault f _ => f = IntOverflow
  | OutOfFuel _ => False
  end.

Definition same_forks : relation world :=
  λ w w', forks (trace w') = forks (trace w).

(** Two worlds look the same through a view [f] of the trace. *)
Definition same_on {X} (f : list action → X) : relation world :=
  λ w w', f (trace w') = f (trace w).

(** What [bb_stop_wait] does to the outside, kept apart from the rest of
    the trace: the signals it sends and the sleeps it takes. *)
Definition stop_events (tr : list action) : list action :=
  omap (λ a, match a with
             | SysKill _ _ | SysUsleep _ => Some a
             | _ => None
             end) tr.

(** One attempt of [bb_stop_wait] in the specification's words: the signal
    of the escalation policy, then a sleep of a second. *)
Definition attempt_events (proc : Z) (attempt : Z) : list action :=
  [SysKill proc (escalation attempt); SysUsleep 1000000].

(** * Proofs *)

(** ** The monad *)

Ltac munfold :=
  unfold mbind, M_bind, mret, M_ret, gets, modify, modify_os, raise in *.

Lemma bind_Ret {A B} (c : M A) (k : A → M B) w v w1 :
  c w = Ret v w1 → (c ≫= k) w = k v w1.
Proof. intros H. munfold. by rewrite H. Qed.

Lemma bind_inv_Ret {A B} (c : M A) (k : A → M B) w v' w' :
  (c ≫= k) w = Ret v' w' → ∃ v w1, c w = Ret v w1 ∧ k v w1 = Ret v' w'.
Proof. munfold. destruct (c w); try discriminate. eauto. Qed.

Lemma bind_unit_r (c : M unit) w : (c ≫= λ _, mret tt) w = c w.
Proof. munfold. by destruct (c w) as [[] ?| | | | |]. Qed.

(** ** Memory access *)

Lemma load_Some p n w :
  p ≠ NULL → mem w !! p = Some n → load p w = Ret n w.
Proof.
  intros Hp Hn. unfold load. destruct (decide (p = NULL)); [done|].
  munfold. by rewrite Hn.
Qed.

Lemma load_NULL w : load NULL w = Fault NullDeref w.
Proof. done. Qed.

Lemma store_Some p f n w :
  p ≠ NULL → mem w !! p = Some n →
  store p f w = Ret tt (set_mem (<[p := f n]> (mem w)) w).
Proof.
  intros Hp Hn. unfold store. by rewrite (bind_Ret _ _ _ _ _ (load_Some _ _ _ Hp Hn)).
Qed.

Lemma free_Some p n w :
  p ≠ NULL → mem w !! p = Some n →
  free p w = Ret tt (set_mem (delete p (mem w)) w).
Proof.
  intros Hp Hn. unfold free. destruct (decide (p = NULL)); [done|].
  munfold. by rewrite Hn.
Qed.

(** ** [pidlist_add] *)

Lemma malloc_Ret w :
  malloc w =
    Ret (brk w) (set_mem (<[brk w := mk_pidlist 0 NULL NULL]> (mem w))
                   (set_brk (N.succ (brk w)) w)).
Proof. done. Qed.

Lemma pidlist_add_added newpid w :
  brk w ≠ NULL → pidlist_add newpid w = Ret tt (added newpid w).
Proof.
  intros Hb. unfold pidlist_add.
  erewrite bind_Ret by apply malloc_Ret.
  erewrite bind_Ret by (apply store_Some; [done | apply lookup_insert_eq]).
  erewrite bind_Ret by (apply store_Some; [done | apply lookup_insert_eq]).
  erewrite bind_Ret by reflexivity.
  erewrite bind_Ret by (apply store_Some; [done | apply lookup_insert_eq]).
  simpl. unfold modify, added, set_pidlist_start, set_mem, set_brk. simpl.
  rewrite !insert_insert_eq.
  by destruct (decide (pidlist_start w = NULL)) as [->|].
Qed.

(** ** Chains *)

Lemma chain_ext m m' p b l :
  (∀ a, (a < b)%N → m' !! a = m !! a) → chain m p b l → chain m' p b l.
Proof.
  revert p b. induction l as [|pid l IH]; intros p b Hm; simpl; [done|].
  intros (Hp & Hlt & Hn). split_and!; [done..|].
  rewrite (Hm p Hlt). destruct (m !! p) as [n|]; [|done].
  destruct Hn as (? & ? & Hc). split_and!; [done..|].
  apply IH; [|done]. intros a Ha. apply Hm. lia.
Qed.

Lemma chain_mono m p b b' l :
  (b ≤ b')%N → chain m p b l → chain m p b' l.
Proof.
  destruct l as [|pid l]; simpl; [done|].
  intros Hb (? & ? & ?). split_and!; [done|lia|done].
Qed.

Lemma chain_length m p b l : chain m p b l → (length l ≤ size m)%nat.
Proof.
  revert m p b. induction l as [|pid l IH]; intros m p b; simpl; [lia|].
  intros (Hp & Hlt & Hn). destruct (m !! p) as [n|] eqn:E; [|done].
  destruct Hn as (_ & _ & Hc).
  assert (length l ≤ size (delete p m))%nat as Hl.
  { apply (IH _ (next n) p). eapply chain_ext; [|done].
    intros a Ha. apply lookup_delete_ne. lia. }
  rewrite map_size_delete_Some in Hl by eauto.
  assert (size m ≠ 0%nat); [|lia].
  apply map_size_non_empty_iff. intros ->. by rewrite lookup_empty in E.
Qed.

Lemma chain_nil m b : chain m NULL b [].
Proof. done. Qed.

Lemma chain_inj m p b l1 l2 : chain m p b l1 → chain m p b l2 → l1 = l2.
Proof.
  revert p b l2. induction l1 as [|pid l1 IH]; intros p b [|pid2 l2]; simpl.
  - done.
  - intros -> (? & _). done.
  - intros (? & _) ->. done.
  - intros (_ & _ & H1) (_ & _ & H2). destruct (m !! p) as [n|]; [|done].
    destruct H1 as (<- & _ & H1), H2 as (<- & _ & H2). f_equal. eauto.
Qed.

(** ** The registry invariant *)

Lemma registry_ok_boot o : registry_ok (boot o) [].
Proof. split_and!; [done| apply map_Forall_empty |done]. Qed.

Lemma registry_ok_added newpid w l :
  registry_ok w l → registry_ok (added newpid w) (newpid :: l).
Proof.
  intros (Hb & Hm & Hc). unfold registry_ok, added. simpl. split_and!.
  - unfold NULL in *. lia.
  - apply map_Forall_insert_2.
    + unfold node_ok, NULL in *. split_and!; [done|lia|done].
    + eapply map_Forall_impl; [done|]. intros a n (? & ? & ?).
      unfold node_ok. split_and!; [done|lia|done].
  - done.
  - lia.
  - rewrite lookup_insert_eq. simpl. split_and!; [done..|].
    eapply chain_ext; [|done]. intros a Ha. apply lookup_insert_ne. lia.
Qed.

Lemma registry_ok_frame w w' l :
  mem w' = mem w → brk w' = brk w → pidlist_start w' = pidlist_start w →
  registry_ok w l → registry_ok w' l.
Proof. unfold registry_ok. by intros -> -> ->. Qed.

Lemma registry_ok_cleared w l m' :
  registry_ok w l → m' ⊆ mem w →
  registry_ok (set_mem m' (set_pidlist_start NULL w)) [].
Proof.
  intros (Hb & Hm & _) Hsub. split_and!; simpl; [done| |done].
  intros a n Ha. apply (Hm a n). by eapply lookup_weaken.
Qed.

Lemma registry_ok_inj w l1 l2 : registry_ok w l1 → registry_ok w l2 → l1 = l2.
Proof. intros (_ & _ & H1) (_ & _ & H2). by eapply chain_inj. Qed.

(** ** [pidlist_find] *)

Lemma pidlist_find_loop_chain l fuel curr b findpid w :
  chain (mem w) curr b l → (length l ≤ fuel)%nat →
  pidlist_find_loop fuel curr findpid w
  = Ret (if decide (findpid ∈ l) then 1 else 0) w.
Proof.
  revert fuel curr b. induction l as [|pid l IH]; intros fuel curr b; simpl.
  - intros -> _. by destruct fuel.
  - intros (Hp & _ & Hn) Hf. destruct (mem w !! curr) as [n|] eqn:E; [|done].
    destruct Hn as (HP & _ & Hc). destruct fuel as [|fuel]; [lia|]. simpl.
    rewrite decide_False by done.
    erewrite bind_Ret by (by apply load_Some).
    destruct (decide (PID n = findpid)) as [Heq|Hne].
    + rewrite decide_True; [done|]. rewrite <- Heq, HP. by left.
    + rewrite (IH fuel _ _ Hc) by lia.
      f_equal. apply decide_ext. rewrite elem_of_cons. split; [by right|].
      intros [->|]; [|done]. by rewrite HP in Hne.
Qed.

Lemma pidlist_find_ok w l findpid :
  registry_ok w l →
  pidlist_find findpid w = Ret (if decide (findpid ∈ l) then 1 else 0) w.
Proof.
  intros (_ & _ & Hc). unfold pidlist_find.
  erewrite bind_Ret by reflexivity. erewrite bind_Ret by reflexivity.
  eapply pidlist_find_loop_chain; [done|]. by eapply chain_length.
Qed.

(** ** [pidlist_remove] *)

Lemma unlink_cleared curr n w :
  curr ≠ NULL → mem w !! curr = Some n → prev n = NULL →
  unlink curr w = Ret tt (set_mem (delete curr (mem w)) (set_pidlist_start NULL w)).
Proof.
  intros Hp Hn Hprev. unfold unlink.
  erewrite bind_Ret by (by apply load_Some).
  destruct (decide (next n = NULL)) as [Hnext|Hnext].
  - erewrite bind_Ret by reflexivity.
    erewrite bind_Ret by (by apply load_Some).
    rewrite decide_True by done.
    erewrite bind_Ret by reflexivity.
    erewrite free_Some by done. by rewrite Hnext.
  - erewrite bind_Ret by (by apply store_Some).
    erewrite bind_Ret by (apply load_Some; [done|apply lookup_insert_eq]).
    simpl. rewrite decide_True by done.
    erewrite bind_Ret by reflexivity.
    erewrite free_Some; [|done|apply lookup_insert_eq].
    simpl. unfold set_mem, set_pidlist_start. simpl.
    by rewrite delete_insert_eq, Hprev.
Qed.

Lemma pidlist_remove_loop_chain l fuel curr b rempid w :
  chain (mem w) curr b l → (length l ≤ fuel)%nat →
  ∃ w', pidlist_remove_loop fuel curr rempid w = Ret tt w' ∧
        (rempid ∉ l → w' = w) ∧
        (rempid ∈ l →
         ∃ m', m' ⊆ mem w ∧ w' = set_mem m' (set_pidlist_start NULL w)).
Proof.
  revert fuel curr b w. induction l as [|pid l IH]; intros fuel curr b w; simpl.
  - intros -> _. exists w. split_and!.
    + by destruct fuel.
    + done.
    + intros H. by apply not_elem_of_nil in H.
  - intros (Hp & _ & Hn) Hf. destruct (mem w !! curr) as [n|] eqn:E; [|done].
    destruct Hn as (HP & Hprev & Hc). destruct fuel as [|fuel]; [lia|]. simpl.
    rewrite decide_False by done.
    erewrite bind_Ret by (by apply load_Some).
    destruct (decide (PID n = rempid)) as [Heq|Hne].
    + erewrite bind_Ret by (by eapply unlink_cleared).
      set (w1 := set_mem (delete curr (mem w)) (set_pidlist_start NULL w)).
      destruct (IH fuel (next n) curr w1) as (w' & Hrun & Hout & Hin).
      { eapply chain_ext; [|done]. intros a Ha. apply lookup_delete_ne. lia. }
      { lia. }
      exists w'. split_and!; [done| |].
      * intros Hnot. exfalso. apply Hnot. rewrite <- Heq, HP. by left.
      * intros _. destruct (decide (rempid ∈ l)) as [Hl|Hl].
        -- destruct (Hin Hl) as (m' & Hsub & ->). exists m'. split; [|done].
           etrans; [done|]. apply delete_subseteq.
        -- rewrite (Hout Hl). exists (delete curr (mem w)).
           split; [apply delete_subseteq|done].
    + erewrite bind_Ret by reflexivity.
      destruct (IH fuel (next n) curr w Hc) as (w' & Hrun & Hout & Hin); [lia|].
      exists w'. split_and!; [done| |].
      * intros Hnot. apply Hout. intros Hl. apply Hnot. by right.
      * intros Hl. apply Hin. apply elem_of_cons in Hl as [->|]; [|done].
        by rewrite HP in Hne.
Qed.

(** [pidlist_remove] on a well-formed registry: nothing happens when the
    PID is not tracked; when it is, the list head becomes null, whatever
    else the list held. *)
Lemma pidlist_remove_ok w l rempid :
  registry_ok w l →
  ∃ w', pidlist_remove rempid w = Ret tt w' ∧
        (rempid ∉ l → w' = w) ∧
        (rempid ∈ l →
         ∃ m', m' ⊆ mem w ∧ w' = set_mem m' (set_pidlist_start NULL w)).
Proof.
  intros (_ & _ & Hc). unfold pidlist_remove.
  erewrite bind_Ret by reflexivity. erewrite bind_Ret by reflexivity.
  eapply pidlist_remove_loop_chain; [done|]. by eapply chain_length.
Qed.

(** The registry after [pidlist_remove] is the one before, or empty. *)
Lemma pidlist_remove_registry w l rempid :
  registry_ok w l →
  ∃ w', pidlist_remove rempid w = Ret tt w' ∧ frame w' = frame w ∧
        (if decide (rempid ∈ l) then registry_ok w' [] else w' = w).
Proof.
  intros Hok. destruct (pidlist_remove_ok w l rempid Hok) as (w' & Hrun & Hout & Hin).
  exists w'. split; [done|]. destruct (decide (rempid ∈ l)) as [Hl|Hl].
  - destruct (Hin Hl) as (m' & Hsub & ->). split; [done|].
    by eapply registry_ok_cleared.
  - by rewrite (Hout Hl).
Qed.

(** ** Runs of the registry operations *)

Lemma run_ops_ok ops w l :
  registry_ok w l → ∃ w' l', run_ops ops w = Ret tt w' ∧ registry_ok w' l'.
Proof.
  revert w l. induction ops as [|[p|p] ops IH]; intros w l Hok; simpl.
  - by exists w, l.
  - erewrite bind_Ret by (apply pidlist_add_added, Hok).
    eapply IH. by apply registry_ok_added.
  - destruct (pidlist_remove_registry w l p Hok) as (w1 & Hrun & _ & Hreg).
    erewrite bind_Ret by done.
    destruct (decide (p ∈ l)); [by eapply IH|]. subst w1. by eapply IH.
Qed.

(** C10: in every state that a sequence of [pidlist_add] and
    [pidlist_remove] calls reaches from the empty list (and every such
    sequence does run to its end), the [prev] pointer of every allocated
    node, hence of every node of the list, is null. *)
Theorem prev_always_null (ops : list reg_op) (o : os_state) :
  ∃ w l, run_ops ops (boot o) = Ret tt w ∧
         chain (mem w) (pidlist_start w) (brk w) l ∧
         ∀ a n, mem w !! a = Some n → prev n = NULL.
Proof.
  destruct (run_ops_ok ops (boot o) [] (registry_ok_boot o))
    as (w & l & Hrun & _ & Hm & Hc).
  exists w, l. split_and!; [done..|].
  intros a n Ha. by destruct (Hm a n Ha) as (_ & _ & ?).
Qed.

(** C1 (the code departs from the specification): with PIDs 1 and 2 tracked,
    [pidlist_remove 2] leaves the list head null, so PID 1, which was
    tracked before the call, is not found after it. *)
Theorem pidlist_remove_forgets_other_pids (o : os_state) :
  let w := world_of (run_ops [Add 1; Add 2] (boot o)) in
  pidlist_find 1 w = Ret 1 w ∧
  ∃ w', pidlist_remove 2 w = Ret tt w' ∧
        pidlist_find 1 w' = Ret 0 w' ∧
        pidlist_start w' = NULL ∧
        mem w' !! 1%N = Some (mk_pidlist 1 NULL NULL).
Proof.
  simpl. split; [by vm_compute|].
  eexists. split; [by vm_compute|]. by vm_compute.
Qed.

(** ** What a computation leaves alone *)

Global Instance same_frame_refl : Reflexive same_frame.
Proof. by intros w. Qed.
Global Instance same_frame_trans : Transitive same_frame.
Proof. unfold same_frame. intros w1 w2 w3 H1 H2. by rewrite H2. Qed.
Global Instance same_kills_refl : Reflexive same_kills.
Proof. by intros w. Qed.
Global Instance same_kills_trans : Transitive same_kills.
Proof. unfold same_kills. intros w1 w2 w3 H1 H2. by rewrite H2. Qed.
Global Instance same_world_refl : Reflexive same_world.
Proof. by intros w. Qed.
Global Instance same_world_trans : Transitive same_world.
Proof. unfold same_world. intros w1 w2 w3 H1 H2. by rewrite H2. Qed.

Section respects.
Context (R : relation world) `{!Reflexive R, !Transitive R}.

Lemma respects_bind {A B} (c : M A) (k : A → M B) :
  respects R c → (∀ v, respects R (k v)) → respects R (c ≫= k).
Proof.
  intros Hc Hk w. specialize (Hc w). munfold.
  destruct (c w) as [v w1| | | | |]; simpl in *; try done.
  etrans; [done|]. apply Hk.
Qed.

Lemma respects_mret {A} (v : A) : respects R (mret v).
Proof. intros w. simpl. reflexivity. Qed.

Lemma respects_gets {A} (f : world → A) : respects R (gets f).
Proof. intros w. simpl. reflexivity. Qed.

Lemma respects_raise {A} (f : fault) : respects R (raise (A:=A) f).
Proof. intros w. simpl. reflexivity. Qed.

Lemma respects_OutOfFuel {A} : respects R (OutOfFuel (A:=A)).
Proof. intros w. simpl. reflexivity. Qed.

Lemma respects_modify (f : world → world) :
  (∀ w, R w (f w)) → respects R (modify f).
Proof. intros Hf w. apply Hf. Qed.

Lemma respects_Ret {A} (c : M A) w v w' :
  respects R c → c w = Ret v w' → R w w'.
Proof. intros Hc Hw. specialize (Hc w). by rewrite Hw in Hc. Qed.
End respects.

Lemma respects_mono (R R' : relation world) {A} (c : M A) :
  (∀ w w', R w w' → R' w w') → respects R c → respects R' c.
Proof. intros HR Hc w. apply HR, Hc. Qed.

Lemma same_world_frame w w' : same_world w w' → same_frame w w'.
Proof. by intros ->. Qed.

Lemma same_frame_kills w w' : same_frame w w' → same_kills w w'.
Proof.
  unfold same_frame, same_kills. intros H.
  by replace (trace w') with (trace (frame w')) by done; rewrite H.
Qed.

Ltac respects_step :=
  first
    [ apply respects_mret | apply respects_gets | apply respects_raise
    | apply respects_OutOfFuel
    | apply respects_bind; [apply _ | | intros ?]
    | apply respects_modify; intros ?; done
    | assumption
    | case_decide | case_match ].

Ltac solve_respects := repeat respects_step.

Section registry_respects.
Context (R : relation world) `{!Reflexive R, !Transitive R}.
Context (HR : ∀ w w', same_frame w w' → R w w').

Lemma load_respects p : respects R (load p).
Proof. unfold load. solve_respects. Qed.

Lemma store_respects p f : respects R (store p f).
Proof.
  unfold store. apply respects_bind; [apply _|apply load_respects|intros n].
  apply respects_modify. intros w. by apply HR.
Qed.

Lemma malloc_respects : respects R malloc.
Proof.
  unfold malloc. solve_respects.
  apply respects_modify. intros w. by apply HR.
Qed.

Lemma free_respects p : respects R (free p).
Proof.
  unfold free. solve_respects.
  apply respects_modify. intros w. by apply HR.
Qed.

Lemma pidlist_add_respects newpid : respects R (pidlist_add newpid).
Proof.
  unfold pidlist_add.
  repeat first [apply malloc_respects | apply store_respects | respects_step].
  apply respects_modify. intros w. by apply HR.
Qed.

Lemma unlink_respects curr : respects R (unlink curr).
Proof.
  unfold unlink.
  repeat first [apply load_respects | apply store_respects
               | apply free_respects | respects_step].
  apply respects_modify. intros w. by apply HR.
Qed.

Lemma pidlist_remove_loop_respects fuel curr rempid :
  respects R (pidlist_remove_loop fuel curr rempid).
Proof.
  revert curr. induction fuel as [|fuel IH]; intros curr; simpl;
    repeat first [apply load_respects | apply unlink_respects
                 | apply IH | respects_step].
Qed.

Lemma pidlist_remove_respects rempid : respects R (pidlist_remove rempid).
Proof.
  unfold pidlist_remove.
  repeat first [apply pidlist_remove_loop_respects | respects_step].
Qed.
End registry_respects.

(** [pidlist_find] changes nothing at all. *)
Lemma pidlist_find_loop_same fuel curr findpid :
  respects same_world (pidlist_find_loop fuel curr findpid).
Proof.
  revert curr. induction fuel as [|fuel IH]; intros curr; simpl.
  - solve_respects.
  - case_decide; [solve_respects|].
    apply respects_bind; [apply _| |intros n].
    + unfold load. solve_respects.
    + case_decide; [solve_respects|apply IH].
Qed.

Lemma pidlist_find_same findpid : respects same_world (pidlist_find findpid).
Proof.
  unfold pidlist_find.
  repeat first [apply pidlist_find_loop_same | respects_step].
Qed.

(** ** The reaper *)

Lemma returns_or_waits_bind {A B} (c : M A) (k : A → M B) w
    (P : A → world → Prop) (Q : world → Prop)
    (P' : B → world → Prop) (Q' : world → Prop) :
  returns_or_waits (c w) P Q →
  (∀ v w1, P v w1 → returns_or_waits (k v w1) P' Q') →
  (∀ w1, Q w1 → Q' w1) →
  returns_or_waits ((c ≫= k) w) P' Q'.
Proof.
  intros Hc Hk HQ. munfold. destruct (c w); simpl in *; try done; eauto.
Qed.

Lemma returns_or_waits_weaken {A} (r : outcome A)
    (P P' : A → world → Prop) (Q Q' : world → Prop) :
  returns_or_waits r P Q →
  (∀ v w, P v w → P' v w) → (∀ w, Q w → Q' w) →
  returns_or_waits r P' Q'.
Proof. destruct r; simpl; eauto. Qed.

Lemma registry_ok_same w w' l :
  same_registry w w' → registry_ok w l → registry_ok w' l.
Proof. intros (? & ? & ?). by apply registry_ok_frame. Qed.

Lemma wait_blocked_shorter evs kids p evs' :
  wait_blocked evs kids = Some (p, evs') → (length evs' < length evs)%nat.
Proof.
  induction evs as [|[q| |] evs IH]; simpl; [done| | |].
  - case_decide.
    + intros [= <- <-]. lia.
    + intros H'. specialize (IH H'). lia.
  - intros H'. specialize (IH H'). lia.
  - intros H'. specialize (IH H'). lia.
Qed.

Lemma wait0_ok w :
  returns_or_waits (wait0 w)
    (λ _ w', same_registry w w' ∧
             (length (sched (os w')) ≤ length (sched (os w)))%nat)
    (λ w', same_registry w w').
Proof.
  unfold wait0. destruct (zombies (os w)) as [|z zs]; simpl;
    [|split; [done|simpl; lia]].
  destruct (children (os w)) as [|kid kids]; simpl.
  { split; [done|]. simpl. lia. }
  destruct (wait_blocked _ _) as [[p evs']|] eqn:E; simpl; [|done].
  split; [done|]. apply wait_blocked_shorter in E. lia.
Qed.

Lemma childsig_handler_ok w l :
  registry_ok w l →
  returns_or_waits (childsig_handler SIGCHLD w)
    (λ _ w', tracks_or_empty l w' ∧
             (length (sched (os w')) ≤ length (sched (os w)))%nat)
    (λ w', registry_ok w' l).
Proof.
  intros Hok. unfold childsig_handler. rewrite decide_False by (by intros []).
  eapply returns_or_waits_bind; [apply wait0_ok| |].
  - intros ret w1 (Hsame & Hlen). simpl.
    unfold bb_log. erewrite bind_Ret by reflexivity.
    set (w2 := emit _ w1).
    assert (registry_ok w2 l) as Hok2.
    { eapply registry_ok_same; [|done]. by destruct Hsame as (? & ? & ?). }
    destruct (pidlist_remove_registry w2 l ret Hok2) as (w' & -> & Hfr & Hreg).
    simpl. split.
    + destruct (decide (ret ∈ l)); [by right|]. subst w'. by left.
    + replace (os w') with (os (frame w')) by done. by rewrite Hfr.
  - intros w1 Hsame. by eapply registry_ok_same.
Qed.

(** ** Sleeping *)

Lemma usleep_run_ok evs w l :
  registry_ok w l →
  returns_or_waits (usleep_run evs w)
    (λ _ w', tracks_or_empty l w' ∧ (length (sched (os w')) < length evs)%nat)
    (λ w', registry_ok w' l).
Proof.
  revert w. induction evs as [|[p| |] evs IH]; intros w Hok.
  - simpl. by eapply registry_ok_frame.
  - cbn [usleep_run]. erewrite bind_Ret by reflexivity.
    eapply returns_or_waits_weaken; [apply IH| |done].
    + by eapply registry_ok_frame.
    + intros _ w' (? & ?). split; [done|simpl; lia].
  - cbn [usleep_run]. erewrite bind_Ret by reflexivity.
    destruct (sa_sigchld (os w)).
    + erewrite bind_Ret by reflexivity.
      eapply returns_or_waits_weaken; [apply (childsig_handler_ok _ l)| |done].
      * by eapply registry_ok_frame.
      * intros _ w' (? & Hlen). simpl in Hlen. split; [done|simpl; lia].
    + eapply returns_or_waits_weaken; [by apply IH| |done].
      intros _ w' (? & ?). split; [done|simpl; lia].
  - simpl. split; [|lia]. left. by eapply registry_ok_frame.
Qed.

Lemma usleep_ok usec w l :
  registry_ok w l →
  returns_or_waits (usleep usec w)
    (λ _ w', tracks_or_empty l w' ∧
             (length (sched (os w')) < length (sched (os w)))%nat)
    (λ w', registry_ok w' l).
Proof.
  intros Hok. unfold usleep. munfold. simpl.
  apply (usleep_run_ok _ (emit _ w)). by eapply registry_ok_frame.
Qed.

(** ** [bb_is_running] and [bb_stop_wait] *)

Lemma bb_is_running_ok w l proc :
  registry_ok w l →
  bb_is_running proc w = Ret (if decide (proc ∈ l) then 1 else 0) w.
Proof. apply pidlist_find_ok. Qed.

Lemma tracks_or_empty_running w l proc :
  tracks_or_empty l w →
  (bb_is_running proc w = Ret 1 w ∧ registry_ok w l ∧ proc ∈ l) ∨
  (bb_is_running proc w = Ret 0 w).
Proof.
  intros [Hok|Hok]; rewrite (bb_is_running_ok _ _ _ Hok).
  - destruct (decide (proc ∈ l)); eauto.
  - right. by rewrite decide_False by apply not_elem_of_nil.
Qed.

(** The loop of [bb_stop_wait], entered with counter [i] after [i] sleeps
    of a schedule that had [L0] events. *)
Lemma bb_stop_wait_loop_ok l proc (L0 : Z) fuel i w :
  tracks_or_empty l w →
  (length (sched (os w)) < fuel)%nat →
  i + Z.of_nat (length (sched (os w))) ≤ L0 →
  match bb_stop_wait_loop fuel proc i w with
  | Ret _ w' => tracks_or_empty l w' ∧ bb_is_running proc w' = Ret 0 w'
  | Waiting w' => registry_ok w' l ∧ proc ∈ l
  | Fault f _ => f = IntOverflow ∧ INT_MAX ≤ L0
  | _ => False
  end.
Proof.
  revert i w. induction fuel as [|fuel IH]; intros i w Htr Hfuel Hi; [lia|].
  cbn [bb_stop_wait_loop].
  destruct (tracks_or_empty_running w l proc Htr) as [(Hrun & Hok & Hin)|Hrun];
    erewrite bind_Ret by done; simpl; [|done].
  unfold incr. destruct (decide (i = INT_MAX)) as [->|Hne].
  { simpl. split; [done|lia]. }
  erewrite bind_Ret by reflexivity.
  assert (∀ sig, (kill proc sig ≫= λ _, usleep 1000000 ≫= λ _,
                  bb_stop_wait_loop fuel proc (i + 1)) w
                 = (usleep 1000000 ≫= λ _,
                    bb_stop_wait_loop fuel proc (i + 1)) (emit (SysKill proc sig) w))
    as Hkill by done.
  assert (∀ sig,
    match (usleep 1000000 ≫= λ _, bb_stop_wait_loop fuel proc (i + 1))
            (emit (SysKill proc sig) w) with
    | Ret _ w' => tracks_or_empty l w' ∧ bb_is_running proc w' = Ret 0 w'
    | Waiting w' => registry_ok w' l ∧ proc ∈ l
    | Fault f _ => f = IntOverflow ∧ INT_MAX ≤ L0
    | _ => False
    end) as Hrest.
  { intros sig.
    assert (registry_ok (emit (SysKill proc sig) w) l) as Hok2
      by by apply (registry_ok_frame w).
    pose proof (usleep_ok 1000000 _ l Hok2) as Hsleep.
    munfold. destruct (usleep 1000000 (emit (SysKill proc sig) w)) as [[] w1| | |w1| |];
      simpl in Hsleep; try done.
    destruct Hsleep as (Htr1 & Hlen). simpl in Hlen. apply IH; [done|lia|lia]. }
  destruct (decide (i + 1 < 10)); rewrite Hkill; apply Hrest.
Qed.

Lemma bb_stop_wait_ok w l proc :
  registry_ok w l →
  match bb_stop_wait proc w with
  | Ret _ w' => tracks_or_empty l w' ∧ bb_is_running proc w' = Ret 0 w'
  | Waiting w' => registry_ok w' l ∧ proc ∈ l
  | Fault f _ => f = IntOverflow ∧ INT_MAX ≤ Z.of_nat (length (sched (os w)))
  | _ => False
  end.
Proof.
  intros Hok. unfold bb_stop_wait. erewrite bind_Ret by reflexivity.
  apply bb_stop_wait_loop_ok; [by left|lia|lia].
Qed.



(** ** [bb_stop_all] *)

(** One round of the loop of [bb_stop_all] on a registry that tracks
    [p :: l]: [bb_stop_wait p], and then on from the node that followed the
    head when the round began. *)
Lemma bb_stop_all_unfold w p l :
  registry_ok w (p :: l) →
  ∃ n, mem w !! pidlist_start w = Some n ∧ PID n = p ∧
       chain (mem w) (next n) (pidlist_start w) l ∧
       bb_stop_all w
       = (bb_stop_wait p ≫= λ _, bb_stop_all_loop (size (mem w)) (next n)) w.
Proof.
  intros (_ & _ & Hp & _ & Hc).
  destruct (mem w !! pidlist_start w) as [n|] eqn:E; [|done].
  destruct Hc as (HP & _ & Hc). exists n. split_and!; [done..|].
  unfold bb_stop_all. erewrite bind_Ret by reflexivity.
  erewrite bind_Ret by reflexivity. cbn [bb_stop_all_loop].
  rewrite decide_False by done.
  erewrite bind_Ret by reflexivity.
  erewrite bind_Ret by (by apply load_Some).
  erewrite bind_Ret by (by apply load_Some).
  by rewrite HP.
Qed.

Lemma bb_stop_all_loop_cleared fuel nxt w :
  registry_ok w [] → fuel ≠ O →
  ∀ w', bb_stop_all_loop fuel nxt w = Ret tt w' → w' = w.
Proof.
  intros (_ & _ & Hc) Hfuel w'. simpl in Hc.
  destruct fuel as [|fuel]; [done|]. cbn [bb_stop_all_loop].
  case_decide; [by intros [= ->]|].
  erewrite bind_Ret by reflexivity. rewrite Hc. by munfold.
Qed.

(** [bb_stop_all] on a registry that tracks at most one PID.  It takes no
    snapshot: it starts at the list head and, in a round, reads its next
    cursor from the head of the list as it then is and calls [bb_stop_wait]
    on the PID in the node under its cursor.  With nothing tracked it
    returns at once; with one PID tracked it is [bb_stop_wait] on that PID;
    and when it returns, the registry is empty. *)
Theorem bb_stop_all_walks_live_list (w : world) (l : list Z) :
  registry_ok w l →
  (l = [] → bb_stop_all w = Ret tt w) ∧
  (∀ p l', l = p :: l' →
     ∃ n, mem w !! pidlist_start w = Some n ∧ PID n = p ∧
          bb_stop_all w
          = (bb_stop_wait p ≫= λ _, bb_stop_all_loop (size (mem w)) (next n)) w) ∧
  (∀ p, l = [p] → bb_stop_all w = bb_stop_wait p w) ∧
  (∀ w', bb_stop_all w = Ret tt w' → registry_ok w' []).
Proof.
  intros Hok. split_and!.
  - intros ->. destruct Hok as (_ & _ & Hc). simpl in Hc.
    unfold bb_stop_all. erewrite bind_Ret by reflexivity.
    erewrite bind_Ret by reflexivity. by rewrite Hc.
  - intros p l' ->. destruct (bb_stop_all_unfold w p l' Hok) as (n & ? & ? & _ & ?).
    by exists n.
  - intros p ->. destruct (bb_stop_all_unfold w p [] Hok) as (n & _ & _ & Hc & ->).
    simpl in Hc. rewrite Hc.
    destruct (size (mem w)); apply bind_unit_r.
  - intros w' Hrun. destruct l as [|p l].
    + destruct Hok as (Hb & Hm & Hc). simpl in Hc.
      unfold bb_stop_all in Hrun. erewrite bind_Ret in Hrun by reflexivity.
      erewrite bind_Ret in Hrun by reflexivity. rewrite Hc in Hrun.
      injection Hrun as <-. by split_and!.
    + destruct (bb_stop_all_unfold w p l Hok) as (n & _ & _ & Hc & Heq).
      rewrite Heq in Hrun. apply bind_inv_Ret in Hrun as ([] & w1 & Hwait & Hloop).
      pose proof (bb_stop_wait_ok w (p :: l) p Hok) as Hw. rewrite Hwait in Hw.
      destruct Hw as ([Hok1|Hok1] & Hgone).
      { rewrite (bb_is_running_ok _ _ _ Hok1), decide_True in Hgone by left.
        discriminate. }
      assert (size (mem w) ≠ O) as Hsize.
      { destruct Hok as (_ & _ & Hch). apply chain_length in Hch. simpl in Hch. lia. }
      by rewrite (bb_stop_all_loop_cleared _ _ _ Hok1 Hsize _ Hloop).
Qed.

Lemma bb_stop_all_walks_live_list_witness :
  let w := one_child [ChildExits 1001; Sigchld] in
  registry_ok w [1001] ∧
  bb_stop_all w = bb_stop_wait 1001 w ∧
  ∀ w', bb_stop_all w = Ret tt w' → registry_ok w' [].
Proof.
  assert (registry_ok (one_child [ChildExits 1001; Sigchld]) [1001]) as Hok.
  { apply (bool_decide_unpack _). vm_compute. exact I. }
  split; [exact Hok|].
  destruct (bb_stop_all_walks_live_list _ _ Hok) as (_ & _ & H1 & H2).
  split; [by apply H1|exact H2].
Defined.

(** C3 (the code departs from the specification, and from its own
    comment, which has it stop all the running processes).  Two children
    are tracked and each dies of the first signal it gets.  Stopping every
    tracked PID in turn, as the specification has it, returns with the
    registry empty.  [bb_stop_all] signals PID 1002 only: the reaper's
    [pidlist_remove 1002] nulls the list head, the second round reads
    through it, and the call ends in that fault, with [bb_stop_wait] never
    called on PID 1001, whose child still runs. *)
Theorem bb_stop_all_no_snapshot :
  let w := two_children [ChildExits 1002; Sigchld; ChildExits 1001; Sigchld] in
  registry_ok w [1002; 1001] ∧
  snapshot w = Ret [1002; 1001] w ∧
  (∃ w', spec_stop_all w = Ret tt w' ∧ pidlist_start w' = NULL) ∧
  (∃ w', bb_stop_all w = Fault NullDeref w' ∧
         kills (trace w') = [(1002, SIGTERM)] ∧
         children (os w') = [1001]) ∧
  bb_stop_all w ≠ spec_stop_all w.
Proof.
  split_and!.
  - apply (bool_decide_unpack _). vm_compute. exact I.
  - by vm_compute.
  - eexists. split; by vm_compute.
  - eexists. split_and!; by vm_compute.
  - by vm_compute.
Qed.

(** ** The signals [bb_stop_wait] sends *)

Lemma world_of_bind {A B} (c : M A) (k : A → M B) w :
  world_of ((c ≫= k) w)
  = match c w with
    | Ret v w1 => world_of (k v w1)
    | r => world_of r
    end.
Proof. munfold. by destruct (c w). Qed.

Lemma wait0_kills : respects same_kills wait0.
Proof.
  intros w. unfold wait0, same_kills.
  destruct (zombies (os w)); [|done].
  destruct (children (os w)); [done|].
  by destruct (wait_blocked _ _) as [[? ?]|].
Qed.

Lemma childsig_handler_kills signum : respects same_kills (childsig_handler signum).
Proof.
  unfold childsig_handler, bb_log.
  repeat first [apply wait0_kills
               | apply pidlist_remove_respects;
                 [apply _|apply _|apply same_frame_kills]
               | respects_step].
Qed.

Lemma usleep_run_kills evs : respects same_kills (usleep_run evs).
Proof.
  induction evs as [|[p| |] evs IH]; simpl; unfold modify_os.
  - by intros w.
  - solve_respects.
  - repeat first [apply childsig_handler_kills | respects_step].
  - solve_respects.
Qed.

Lemma usleep_kills usec : respects same_kills (usleep usec).
Proof.
  unfold usleep. repeat first [apply usleep_run_kills | respects_step].
Qed.

Lemma bb_is_running_same proc w : world_of (bb_is_running proc w) = w.
Proof. apply pidlist_find_same. Qed.

(** Entered with counter [i], the loop sends [proc] the signals of the
    attempts [i + 1], [i + 2], ... and no other signal. *)
Lemma bb_stop_wait_loop_kills proc fuel i w :
  ∃ n : nat,
    reverse (kills (trace (world_of (bb_stop_wait_loop fuel proc i w))))
    = reverse (kills (trace w))
      ++ ((λ k, (proc, escalation k)) <$> seqZ (i + 1) (Z.of_nat n)).
Proof.
  revert i w. induction fuel as [|fuel IH]; intros i w;
    cbn [bb_stop_wait_loop]; rewrite world_of_bind;
    pose proof (bb_is_running_same proc w) as Hsame;
    destruct (bb_is_running proc w) as [r w1| | | | |]; simpl in Hsame;
    subst; try (exists O; simpl; by rewrite app_nil_r).
  - exists O. destruct (decide (r = 0)); simpl; by rewrite app_nil_r.
  - destruct (decide (r = 0)); [exists O; simpl; by rewrite app_nil_r|].
    rewrite world_of_bind. unfold incr.
    destruct (decide (i = INT_MAX)); [exists O; simpl; by rewrite app_nil_r|].
    simpl.
    assert (∃ w2, (if decide (i + 1 < 10) then kill proc SIGTERM
                   else kill proc SIGKILL) w = Ret tt w2 ∧
                  kills (trace w2) = (proc, escalation (i + 1)) :: kills (trace w))
      as (w2 & Hkill & Hk2).
    { unfold escalation.
      destruct (decide (i + 1 < 10)), (decide (i + 1 ≤ 9)); try lia;
        eexists; split; reflexivity. }
    rewrite world_of_bind, Hkill, world_of_bind.
    pose proof (usleep_kills 1000000 w2) as Hsleep. unfold same_kills in Hsleep.
    assert (∀ w3, kills (trace w3) = kills (trace w2) →
              reverse (kills (trace w3))
              = reverse (kills (trace w))
                ++ ((λ k, (proc, escalation k)) <$> seqZ (i + 1) (Z.of_nat 1))) as Hone.
    { intros w3 ->. by rewrite Hk2, reverse_cons. }
    destruct (usleep 1000000 w2) as [[] w3| | | | |]; simpl in Hsleep;
      try (exists 1%nat; by apply Hone).
    destruct (IH (i + 1) w3) as (m & Hm). exists (S m).
    rewrite Hm, Hsleep, Hk2, reverse_cons, <- app_assoc. f_equal.
    rewrite (seqZ_cons (i + 1)) by lia. simpl. do 2 f_equal.
    f_equal; lia.
Qed.

(** A child that survives every signal, and a schedule that ends during
    the twelfth sleep: twelve attempts, nine of them graceful. *)
Example bb_stop_wait_twelve_attempts :
  let w := world_of (bb_stop_wait 1001 (one_child (replicate 11 Tick))) in
  reverse (kills (trace w))
  = replicate 9 (1001, SIGTERM) ++ replicate 3 (1001, SIGKILL).
Proof. by vm_compute. Qed.

(** ** One call of the handler *)

Lemma childsig_handler_zombie w z zs :
  zombies (os w) = z :: zs →
  childsig_handler SIGCHLD w
  = pidlist_remove z
      (emit (Log LOG_DEBUG MsgTerminated [ArgInt z])
         (emit (SysWait z) (set_os (set_zombies zs (os w)) w))).
Proof.
  intros Hz. unfold childsig_handler. rewrite decide_False by (by intros []).
  erewrite bind_Ret by (unfold wait0; rewrite Hz; reflexivity).
  unfold bb_log. by erewrite bind_Ret by reflexivity.
Qed.





(** ** The launcher *)

Lemma check_handler_Ret w :
  ∃ w1, check_handler w = Ret tt w1 ∧ same_registry w w1 ∧
        children (os w1) = children (os w) ∧ zombies (os w1) = zombies (os w) ∧
        fork_q (os w1) = fork_q (os w) ∧ exec_err (os w1) = exec_err (os w) ∧
        sched (os w1) = sched (os w) ∧
        trace w1 = (if decide (handler_set w = 0) then [SysSigaction SIGCHLD]
                    else []) ++ trace w.
Proof.
  unfold check_handler. erewrite bind_Ret by reflexivity.
  destruct (decide (handler_set w = 0)); eexists; (split; [reflexivity|done]).
Qed.

Lemma fork_Ret w :
  let ret := hd (-1) (fork_q (os w)) in
  ∃ w1, fork w = Ret ret w1 ∧ same_registry w w1 ∧
        fork_q (os w1) = tl (fork_q (os w)) ∧
        exec_err (os w1) = exec_err (os w) ∧
        sched (os w1) = sched (os w) ∧
        trace w1 = SysFork :: trace w ∧
        (ret < 0 → children (os w1) = children (os w) ∧
                   zombies (os w1) = zombies (os w)) ∧
        (ret > 0 → children (os w1) = children (os w) ++ [ret] ∧
                   zombies (os w1) = zombies (os w)).
Proof.
  intros ret. unfold fork. munfold. simpl. fold ret.
  destruct (decide (ret = 0)); [|destruct (decide (ret > 0))];
    simpl; eexists; (split; [reflexivity|]); split_and!; try done; lia.
Qed.

(** C7: when [fork] fails, [bb_run_fork] and [bb_run_fork_ld] return 0,
    having logged the error and called [fork] once; the registry, and the
    children the system knows, are as they were. *)
Theorem fork_failure_returns_zero (argv : list string) (ldpath : string) (w : world) :
  hd (-1) (fork_q (os w)) < 0 →
  ∃ w', bb_run_fork argv w = Ret 0 w' ∧
        bb_run_fork_ld argv ldpath w = Ret 0 w' ∧
        same_registry w w' ∧
        (∀ l, registry_ok w l → registry_ok w' l) ∧
        children (os w') = children (os w) ∧
        zombies (os w') = zombies (os w) ∧
        fork_q (os w') = tl (fork_q (os w)) ∧
        trace w' = Log LOG_ERR MsgForkFailed [ArgStr (head argv)] :: SysFork ::
                   (if decide (handler_set w = 0) then [SysSigaction SIGCHLD]
                    else []) ++ trace w.
Proof.
  intros Hret.
  destruct (check_handler_Ret w)
    as (w1 & Hcheck & Hreg1 & Hkids1 & Hz1 & Hq1 & He1 & Hs1 & Htr1).
  destruct (fork_Ret w1)
    as (w2 & Hfork & Hreg2 & Hq2 & He2 & Hs2 & Htr2 & Hfail & _).
  rewrite Hq1 in Hfork, Hfail. destruct (Hfail Hret) as (Hkids2 & Hz2).
  exists (emit (Log LOG_ERR MsgForkFailed [ArgStr (head argv)]) w2).
  assert (same_registry w (emit (Log LOG_ERR MsgForkFailed [ArgStr (head argv)]) w2))
    as Hsame.
  { destruct Hreg1 as (? & ? & ?), Hreg2 as (? & ? & ?).
    unfold same_registry. simpl. split_and!; congruence. }
  split_and!.
  - unfold bb_run_fork. erewrite bind_Ret by done. erewrite bind_Ret by done.
    rewrite !decide_False by lia. done.
  - unfold bb_run_fork_ld. erewrite bind_Ret by done. erewrite bind_Ret by done.
    rewrite !decide_False by lia. done.
  - done.
  - intros l. by apply registry_ok_same.
  - simpl. congruence.
  - simpl. congruence.
  - simpl. congruence.
  - simpl. by rewrite Htr2, Htr1.
Qed.

Lemma fork_failure_returns_zero_witness :
  let w := boot (mk_os false [] [] [] [-1; 1001] None) in
  hd (-1) (fork_q (os w)) < 0 ∧
  ∃ w', bb_run_fork ["sleep"; "2"] w = Ret 0 w' ∧
        bb_run_fork_ld ["sleep"; "2"] "/usr/lib/nvidia" w = Ret 0 w' ∧
        pidlist_start w' = NULL ∧
        fork_q (os w') = [1001] ∧
        trace w' = [Log LOG_ERR MsgForkFailed [ArgStr (Some "sleep")]; SysFork;
                    SysSigaction SIGCHLD].
Proof.
  split; [reflexivity|].
  destruct (fork_failure_returns_zero ["sleep"; "2"] "/usr/lib/nvidia"
              (boot (mk_os false [] [] [] [-1; 1001] None)) eq_refl)
    as (w' & H1 & H2 & (_ & _ & H3) & _ & _ & _ & H4 & H5).
  exists w'. split_and!; [exact H1|exact H2|exact H3|exact H4|exact H5].
Defined.

(** ** Exit statuses *)

Lemma exits_42_bind {A B} (c : M A) (k : A → M B) :
  exits_42 c → (∀ v, exits_42 (k v)) → exits_42 (c ≫= k).
Proof.
  intros Hc Hk w code w'. munfold. specialize (Hc w).
  destruct (c w) as [v w1|code1 w1| | | |]; try done.
  - apply Hk.
  - intros [= <- <-]. by eapply Hc.
Qed.

Lemma exits_42_mret {A} (v : A) : exits_42 (mret v).
Proof. by intros w code w'. Qed.
Lemma exits_42_gets {A} (f : world → A) : exits_42 (gets f).
Proof. by intros w code w'. Qed.
Lemma exits_42_modify f : exits_42 (modify f).
Proof. by intros w code w'. Qed.
Lemma exits_42_modify_os f : exits_42 (modify_os f).
Proof. by intros w code w'. Qed.
Lemma exits_42_raise {A} f : exits_42 (raise (A:=A) f).
Proof. by intros w code w'. Qed.
Lemma exits_42_OutOfFuel {A} : exits_42 (OutOfFuel (A:=A)).
Proof. by intros w code w'. Qed.
Lemma exits_42_Waiting {A} g : exits_42 (λ w, Waiting (A:=A) (g w)).
Proof. by intros w code w'. Qed.
Lemma exits_42_bb_log level msg args : exits_42 (bb_log level msg args).
Proof. by intros w code w'. Qed.
Lemma exits_42_exit {A} : exits_42 (exit (A:=A) 42).
Proof. by intros w code w' [= <- _]. Qed.

Lemma exits_42_wait0 : exits_42 wait0.
Proof.
  intros w code w'. unfold wait0.
  destruct (zombies (os w)); [|done].
  destruct (children (os w)); [done|].
  by destruct (wait_blocked _ _) as [[? ?]|].
Qed.

Lemma exits_42_execvp file argv : exits_42 (execvp file argv).
Proof. intros w code w'. unfold execvp. by destruct (exec_err (os w)). Qed.

Create HintDb exits discriminated.
#[local] Hint Resolve exits_42_mret exits_42_gets exits_42_modify
  exits_42_modify_os exits_42_raise exits_42_OutOfFuel exits_42_Waiting
  exits_42_exit exits_42_wait0 exits_42_execvp exits_42_bb_log : exits.

Ltac exits_step :=
  first [ solve [auto with exits]
        | apply exits_42_bind; [|intros ?]
        | case_decide | case_match ].
Ltac solve_exits := repeat exits_step.

Lemma exits_42_load p : exits_42 (load p).
Proof. unfold load. solve_exits. Qed.
#[local] Hint Resolve exits_42_load : exits.

Lemma exits_42_store p f : exits_42 (store p f).
Proof. unfold store. solve_exits. Qed.
Lemma exits_42_malloc : exits_42 malloc.
Proof. unfold malloc. solve_exits. Qed.
Lemma exits_42_free p : exits_42 (free p).
Proof. unfold free. solve_exits. Qed.
#[local] Hint Resolve exits_42_store exits_42_malloc exits_42_free : exits.

Lemma exits_42_pidlist_add newpid : exits_42 (pidlist_add newpid).
Proof. unfold pidlist_add. solve_exits. Qed.
Lemma exits_42_unlink curr : exits_42 (unlink curr).
Proof. unfold unlink. solve_exits. Qed.
#[local] Hint Resolve exits_42_pidlist_add exits_42_unlink : exits.

Lemma exits_42_pidlist_remove_loop fuel curr rempid :
  exits_42 (pidlist_remove_loop fuel curr rempid).
Proof.
  revert curr. induction fuel as [|fuel IH]; intros curr; simpl; solve_exits.
Qed.
#[local] Hint Resolve exits_42_pidlist_remove_loop : exits.

Lemma exits_42_pidlist_remove rempid : exits_42 (pidlist_remove rempid).
Proof. unfold pidlist_remove. solve_exits. Qed.

Lemma exits_42_pidlist_find_loop fuel curr findpid :
  exits_42 (pidlist_find_loop fuel curr findpid).
Proof.
  revert curr. induction fuel as [|fuel IH]; intros curr; simpl; solve_exits.
Qed.
#[local] Hint Resolve exits_42_pidlist_remove exits_42_pidlist_find_loop : exits.

Lemma exits_42_bb_is_running proc : exits_42 (bb_is_running proc).
Proof. unfold bb_is_running, pidlist_find. solve_exits. Qed.

Lemma exits_42_childsig_handler signum : exits_42 (childsig_handler signum).
Proof. unfold childsig_handler, bb_log. solve_exits. Qed.
#[local] Hint Resolve exits_42_bb_is_running exits_42_childsig_handler : exits.

Lemma exits_42_usleep_run evs : exits_42 (usleep_run evs).
Proof. induction evs as [|[p| |] evs IH]; cbn [usleep_run]; solve_exits. Qed.
#[local] Hint Resolve exits_42_usleep_run : exits.

Lemma exits_42_usleep usec : exits_42 (usleep usec).
Proof. unfold usleep. solve_exits. Qed.

Lemma exits_42_check_handler : exits_42 check_handler.
Proof. unfold check_handler, sigaction. solve_exits. Qed.

Lemma exits_42_fork : exits_42 fork.
Proof. unfold fork. solve_exits. Qed.

Lemma exits_42_bb_run_exec argv : exits_42 (bb_run_exec argv).
Proof. unfold bb_run_exec, errno, bb_log. solve_exits. Qed.
#[local] Hint Resolve exits_42_usleep exits_42_check_handler exits_42_fork
  exits_42_bb_run_exec : exits.

Lemma exits_42_bb_run_fork argv : exits_42 (bb_run_fork argv).
Proof. unfold bb_run_fork, bb_log. solve_exits. Qed.

Lemma exits_42_bb_run_fork_ld argv ldpath : exits_42 (bb_run_fork_ld argv ldpath).
Proof. unfold bb_run_fork_ld, bb_log, setenv. solve_exits. Qed.

Lemma exits_42_bb_run_fork_wait_loop fuel ret :
  exits_42 (bb_run_fork_wait_loop fuel ret).
Proof. induction fuel as [|fuel IH]; simpl; solve_exits. Qed.
#[local] Hint Resolve exits_42_bb_run_fork_wait_loop : exits.

Lemma exits_42_bb_run_fork_wait argv : exits_42 (bb_run_fork_wait argv).
Proof. unfold bb_run_fork_wait, bb_log. solve_exits. Qed.

Lemma exits_42_bb_stop proc : exits_42 (bb_stop proc).
Proof. unfold bb_stop, kill. solve_exits. Qed.

Lemma exits_42_bb_stop_wait_loop fuel proc i :
  exits_42 (bb_stop_wait_loop fuel proc i).
Proof.
  revert i. induction fuel as [|fuel IH]; intros i; simpl; unfold incr, kill;
    solve_exits.
Qed.
#[local] Hint Resolve exits_42_bb_stop_wait_loop : exits.

Lemma exits_42_bb_stop_wait proc : exits_42 (bb_stop_wait proc).
Proof. unfold bb_stop_wait. solve_exits. Qed.
#[local] Hint Resolve exits_42_bb_stop_wait : exits.

Lemma exits_42_bb_stop_all_loop fuel nxt : exits_42 (bb_stop_all_loop fuel nxt).
Proof. revert nxt. induction fuel as [|fuel IH]; intros nxt; simpl; solve_exits. Qed.
#[local] Hint Resolve exits_42_bb_stop_all_loop : exits.

Lemma exits_42_bb_stop_all : exits_42 bb_stop_all.
Proof. unfold bb_stop_all. solve_exits. Qed.

(** C9: when [execvp] fails, [bb_run_exec] logs the error with the
    description of [errno] and exits with status 42, and so does the child
    that [bb_run_fork] continues as; and no function of the file ends the
    process with any other status. *)
Theorem exec_failure_exits_42 (argv : list string) (w : world) (e : Z) :
  exec_err (os w) = Some e →
  bb_run_exec argv w
  = Exited 42
      (emit (SysExit 42)
         (emit (Log LOG_ERR MsgExecFailed [ArgStr (head argv); ArgStrerror e])
            (emit (SysExecvp (head argv) argv) w))) ∧
  (hd (-1) (fork_q (os w)) = 0 →
   ∃ w' tr, bb_run_fork argv w = Exited 42 w' ∧
            trace w' = SysExit 42
                       :: Log LOG_ERR MsgExecFailed [ArgStr (head argv); ArgStrerror e]
                       :: SysExecvp (head argv) argv :: tr) ∧
  (∀ argv ldpath proc signum,
     exits_42 (bb_run_exec argv) ∧ exits_42 (bb_run_fork argv) ∧
     exits_42 (bb_run_fork_ld argv ldpath) ∧ exits_42 (bb_run_fork_wait argv) ∧
     exits_42 (bb_is_running proc) ∧ exits_42 (bb_stop proc) ∧
     exits_42 (bb_stop_wait proc) ∧ exits_42 bb_stop_all ∧
     exits_42 (childsig_handler signum)).
Proof.
  intros He.
  assert (∀ w1, exec_err (os w1) = Some e →
            bb_run_exec argv w1
            = Exited 42
                (emit (SysExit 42)
                   (emit (Log LOG_ERR MsgExecFailed [ArgStr (head argv); ArgStrerror e])
                      (emit (SysExecvp (head argv) argv) w1)))) as Hexec.
  { intros w1 He1. unfold bb_run_exec.
    erewrite bind_Ret by (unfold execvp; rewrite He1; reflexivity).
    erewrite bind_Ret by (unfold errno, gets; simpl; rewrite He1; reflexivity).
    unfold bb_log. by erewrite bind_Ret by reflexivity. }
  split_and!.
  - by apply Hexec.
  - intros Hret.
    destruct (check_handler_Ret w) as (w1 & Hcheck & _ & _ & _ & Hq1 & He1 & _).
    destruct (fork_Ret w1) as (w2 & Hfork & _ & _ & He2 & _).
    rewrite Hq1, Hret in Hfork.
    eexists _, _. split.
    + unfold bb_run_fork. erewrite bind_Ret by done. erewrite bind_Ret by done.
      rewrite decide_True by done. unfold mbind, M_bind at 1.
      rewrite Hexec by congruence. reflexivity.
    + reflexivity.
  - intros argv' ldpath proc signum.
    split_and!;
      auto using exits_42_bb_run_exec, exits_42_bb_run_fork, exits_42_bb_run_fork_ld,
        exits_42_bb_run_fork_wait, exits_42_bb_is_running, exits_42_bb_stop,
        exits_42_bb_stop_wait, exits_42_bb_stop_all, exits_42_childsig_handler.
Qed.

Lemma exec_failure_exits_42_witness :
  let w := boot (mk_os false [] [] [] [0] (Some 2)) in
  exec_err (os w) = Some 2 ∧
  bb_run_exec ["/does/not/exist"] w
  = Exited 42
      (emit (SysExit 42)
         (emit (Log LOG_ERR MsgExecFailed
                  [ArgStr (Some "/does/not/exist"); ArgStrerror 2])
            (emit (SysExecvp (Some "/does/not/exist") ["/does/not/exist"]) w))) ∧
  ∃ w' tr, bb_run_fork ["/does/not/exist"] w = Exited 42 w' ∧
           trace w' = SysExit 42
                      :: Log LOG_ERR MsgExecFailed
                           [ArgStr (Some "/does/not/exist"); ArgStrerror 2]
                      :: SysExecvp (Some "/does/not/exist") ["/does/not/exist"]
                      :: tr.
Proof.
  split; [reflexivity|].
  destruct (exec_failure_exits_42 ["/does/not/exist"]
              (boot (mk_os false [] [] [] [0] (Some 2))) 2 eq_refl)
    as (H1 & H2 & _).
  split; [exact H1|]. apply H2. reflexivity.
Defined.

(** A launch whose [fork] succeeds returns the new PID, and the registry
    tracks it when the launch returns. *)
Lemma bb_run_fork_registers argv w l :
  registry_ok w l → hd (-1) (fork_q (os w)) > 0 →
  ∃ w', bb_run_fork argv w = Ret (hd (-1) (fork_q (os w))) w' ∧
        registry_ok w' (hd (-1) (fork_q (os w)) :: l) ∧
        bb_is_running (hd (-1) (fork_q (os w))) w' = Ret 1 w'.
Proof.
  intros Hok Hret.
  destruct (check_handler_Ret w) as (w1 & Hcheck & Hreg1 & _ & _ & Hq1 & _).
  destruct (fork_Ret w1) as (w2 & Hfork & Hreg2 & _).
  rewrite Hq1 in Hfork. set (ret := hd (-1) (fork_q (os w))) in *.
  set (w3 := emit (Log LOG_INFO MsgStarted [ArgStr (head argv); ArgInt ret]) w2).
  assert (registry_ok w3 l) as Hok3.
  { apply (registry_ok_same w2); [done|].
    apply (registry_ok_same w1); [done|]. by apply (registry_ok_same w). }
  assert (registry_ok (added ret w3) (ret :: l)) as Hok4
    by by apply registry_ok_added.
  exists (added ret w3). split_and!; [|done|].
  - unfold bb_run_fork. erewrite bind_Ret by done. erewrite bind_Ret by done.
    rewrite decide_False by lia. rewrite decide_True by done.
    unfold bb_log. erewrite bind_Ret by reflexivity.
    erewrite bind_Ret by (apply pidlist_add_added, Hok3). done.
  - rewrite (bb_is_running_ok _ _ _ Hok4). by rewrite decide_True by left.
Qed.

(** C8 (the code departs from the specification): two launches succeed; right
    after the first, its PID 1001 is running as far as [bb_is_running]
    knows.  Then child 1002 terminates and is reaped during a sleep.  Child
    1001 has not terminated, yet [bb_is_running 1001] now says no. *)
Theorem launched_pid_lost_when_sibling_reaped :
  let w0 := boot (mk_os false [] [] [ChildExits 1002; Sigchld] [1001; 1002] None) in
  ∃ w1 w2 w3,
    bb_run_fork ["sleep"; "2"] w0 = Ret 1001 w1 ∧
    bb_is_running 1001 w1 = Ret 1 w1 ∧
    bb_run_fork ["sleep"; "3"] w1 = Ret 1002 w2 ∧
    bb_is_running 1001 w2 = Ret 1 w2 ∧
    usleep 1000000 w2 = Ret tt w3 ∧
    children (os w3) = [1001] ∧
    reaped (trace w3) = [1002] ∧
    bb_is_running 1001 w3 = Ret 0 w3.
Proof.
  eexists _, _, _. split_and!.
  - by vm_compute.
  - by vm_compute.
  - by vm_compute.
  - by vm_compute.
  - by vm_compute.
  - by vm_compute.
  - by vm_compute.
  - by vm_compute.
Qed.

(** C6 (the code departs from the specification): after two launches and the
    reaping of child 1002, PID 1001 has been launched and has not been
    observed to exit, and the registry does not hold it: the list is
    empty. *)
Theorem registry_misses_launched_unreaped_pid :
  let w := two_children [ChildExits 1002; Sigchld] in
  ∃ w', usleep 1000000 w = Ret tt w' ∧
        1001 ∈ launched (trace w') ∧
        (1001 ∉ reaped (trace w')) ∧
        1001 ∈ children (os w') ∧
        pidlist_find 1001 w' = Ret 0 w' ∧
        pidlist_start w' = NULL ∧
        registry_ok w' [].
Proof.
  eexists. split; [by vm_compute|].
  split_and!.
  - apply (bool_decide_unpack _). by vm_compute.
  - apply (bool_decide_unpack _). by vm_compute.
  - apply (bool_decide_unpack _). by vm_compute.
  - by vm_compute.
  - by vm_compute.
  - apply (bool_decide_unpack _). by vm_compute.
Qed.

(** * More of the file *)

(** ** The registry operations *)

Lemma chain_nodes_ext m m' p b l :
  (∀ a, (a < b)%N → m' !! a = m !! a) → chain m p b l →
  chain_nodes m' p l = chain_nodes m p l.
Proof.
  revert p b. induction l as [|pid l IH]; intros p b Hm; simpl; [done|].
  intros (Hp & Hlt & Hn). f_equal. rewrite (Hm p Hlt).
  destruct (m !! p) as [n|]; [|done]. destruct Hn as (_ & _ & Hc).
  eapply IH; [|done]. intros a Ha. apply Hm. lia.
Qed.

Lemma chain_nodes_below m p b l a pid :
  chain m p b l → (a, pid) ∈ chain_nodes m p l → (a < b)%N.
Proof.
  revert p b. induction l as [|pid' l IH]; intros p b; simpl.
  - intros _ H. by apply not_elem_of_nil in H.
  - intros (Hp & Hlt & Hn) Hin. destruct (m !! p) as [n|]; [|done].
    destruct Hn as (_ & _ & Hc).
    apply elem_of_cons in Hin as [[= -> _]|Hin]; [done|].
    specialize (IH _ _ Hc Hin). lia.
Qed.

(** The loop of [pidlist_remove] on a chain: it frees the nodes of the
    chain that hold [rempid] and no other, and nulls the list head if
    there is such a node. *)
Lemma pidlist_remove_loop_exact l fuel curr b rempid w :
  chain (mem w) curr b l → (length l ≤ fuel)%nat →
  ∃ w', pidlist_remove_loop fuel curr rempid w = Ret tt w' ∧
        frame w' = frame w ∧ brk w' = brk w ∧
        pidlist_start w' = (if decide (rempid ∈ l) then NULL else pidlist_start w) ∧
        ∀ a, mem w' !! a
             = if decide ((a, rempid) ∈ chain_nodes (mem w) curr l) then None
               else mem w !! a.
Proof.
  revert fuel curr b w. induction l as [|pid l IH]; intros fuel curr b w; simpl.
  - intros -> _. exists w. split_and!; try done; by destruct fuel.
  - intros (Hp & _ & Hn) Hf. destruct (mem w !! curr) as [n|] eqn:E; [|done].
    destruct Hn as (HP & Hprev & Hc). destruct fuel as [|fuel]; [lia|]. simpl.
    rewrite decide_False by done.
    erewrite bind_Ret by (by apply load_Some).
    destruct (decide (PID n = rempid)) as [Heq|Hne].
    + erewrite bind_Ret by (by eapply unlink_cleared).
      set (w1 := set_mem (delete curr (mem w)) (set_pidlist_start NULL w)).
      assert (∀ a, (a < curr)%N → mem w1 !! a = mem w !! a) as Hext.
      { intros a Ha. apply lookup_delete_ne. lia. }
      destruct (IH fuel (next n) curr w1) as (w' & Hrun & Hfr & Hbrk & Hst & Hmem).
      { by eapply chain_ext. }
      { lia. }
      exists w'. split_and!; [done|by rewrite Hfr|by rewrite Hbrk| |].
      * rewrite Hst. rewrite (decide_True (P := rempid ∈ pid :: l)).
        -- by destruct (decide (rempid ∈ l)).
        -- rewrite <- Heq, HP. by left.
      * intros a. rewrite Hmem, (chain_nodes_ext _ _ _ _ _ Hext Hc).
        destruct (decide (a = curr)) as [->|Hac].
        -- rewrite (decide_True (P := _ ∈ _ :: _)).
           ++ destruct (decide ((curr, rempid) ∈ chain_nodes (mem w) (next n) l));
                [done|]. apply lookup_delete_eq.
           ++ rewrite <- Heq, HP. by left.
        -- simpl. rewrite lookup_delete_ne by done.
           apply decide_ext. rewrite elem_of_cons. split; [by right|].
           intros [[= ? _]|]; done.
    + erewrite bind_Ret by reflexivity.
      destruct (IH fuel (next n) curr w Hc) as (w' & Hrun & Hfr & Hbrk & Hst & Hmem);
        [lia|].
      exists w'. split_and!; [done..| |].
      * rewrite Hst. apply decide_ext. rewrite elem_of_cons. split; [by right|].
        intros [->|]; [|done]. by rewrite HP in Hne.
      * intros a. rewrite Hmem. apply decide_ext. rewrite elem_of_cons.
        split; [by right|]. intros [[= _ ->]|]; [|done]. by rewrite HP in Hne.
Qed.

(** X1: [pidlist_add] always inserts, at the head and without looking for
    the PID: the registry then tracks [newpid :: l] (a second entry if the
    PID was tracked already), [pidlist_find] finds the new PID, answers for
    every other PID as before, and nothing outside the registry changes. *)
Theorem pidlist_add_then_find (w : world) (l : list Z) (newpid : Z) :
  registry_ok w l →
  ∃ w', pidlist_add newpid w = Ret tt w' ∧
        registry_ok w' (newpid :: l) ∧
        frame w' = frame w ∧
        pidlist_find newpid w' = Ret 1 w' ∧
        ∀ q, q ≠ newpid →
          ∃ v, pidlist_find q w = Ret v w ∧ pidlist_find q w' = Ret v w'.
Proof.
  intros Hok. pose proof (registry_ok_added newpid w l Hok) as Hok'.
  exists (added newpid w). split_and!.
  - apply pidlist_add_added, Hok.
  - done.
  - done.
  - rewrite (pidlist_find_ok _ _ _ Hok'). by rewrite decide_True by left.
  - intros q Hq. exists (if decide (q ∈ l) then 1 else 0).
    rewrite (pidlist_find_ok _ _ _ Hok), (pidlist_find_ok _ _ _ Hok').
    split; [done|]. f_equal. apply decide_ext. rewrite elem_of_cons.
    split; [|by right]. by intros [|].
Qed.

Lemma pidlist_add_then_find_witness :
  let w := world_of (run_ops [Add 7] (boot (mk_os false [] [] [] [] None))) in
  registry_ok w [7] ∧
  ∃ w', pidlist_add 7 w = Ret tt w' ∧
        registry_ok w' [7; 7] ∧
        pidlist_find 7 w' = Ret 1 w'.
Proof.
  assert (registry_ok (world_of (run_ops [Add 7]
            (boot (mk_os false [] [] [] [] None)))) [7]) as Hok.
  { apply (bool_decide_unpack _). vm_compute. exact I. }
  split; [exact Hok|].
  destruct (pidlist_add_then_find _ _ 7 Hok) as (w' & H1 & H2 & _ & H3 & _).
  exists w'. split_and!; [exact H1|exact H2|exact H3].
Defined.

(** X2: [pidlist_remove] of a PID the registry does not track changes
    nothing at all. *)
Theorem pidlist_remove_untracked_is_noop (w : world) (l : list Z) (rempid : Z) :
  registry_ok w l → rempid ∉ l → pidlist_remove rempid w = Ret tt w.
Proof.
  intros Hok Hnot.
  destruct (pidlist_remove_ok w l rempid Hok) as (w' & Hrun & Hout & _).
  by rewrite Hrun, (Hout Hnot).
Qed.

Lemma pidlist_remove_untracked_is_noop_witness :
  let w := world_of (run_ops [Add 1; Add 2] (boot (mk_os false [] [] [] [] None))) in
  registry_ok w [2; 1] ∧ (3 ∉ [2; 1]) ∧ pidlist_remove 3 w = Ret tt w.
Proof.
  assert (registry_ok (world_of (run_ops [Add 1; Add 2]
            (boot (mk_os false [] [] [] [] None)))) [2; 1]) as Hok.
  { apply (bool_decide_unpack _). vm_compute. exact I. }
  assert (3 ∉ [2; 1]) as Hnot.
  { apply (bool_decide_unpack _). vm_compute. exact I. }
  split; [exact Hok|]. split; [exact Hnot|].
  exact (pidlist_remove_untracked_is_noop _ _ 3 Hok Hnot).
Defined.

(** X3: [pidlist_remove] of a tracked PID returns with a null list head,
    so that afterwards [pidlist_find] finds no PID whatever.  It frees the
    nodes of the list that held the PID and leaves every other node as it
    was: the nodes of the other PIDs stay allocated, out of reach. *)
Theorem pidlist_remove_tracked_empties_list (w : world) (l : list Z) (rempid : Z) :
  registry_ok w l → rempid ∈ l →
  ∃ w', pidlist_remove rempid w = Ret tt w' ∧
        frame w' = frame w ∧
        pidlist_start w' = NULL ∧
        registry_ok w' [] ∧
        (∀ q, pidlist_find q w' = Ret 0 w') ∧
        ∀ a, mem w' !! a
             = if decide ((a, rempid) ∈ chain_nodes (mem w) (pidlist_start w) l)
               then None else mem w !! a.
Proof.
  intros Hok Hin. pose proof Hok as (Hb & Hm & Hc).
  destruct (pidlist_remove_loop_exact l (size (mem w)) _ _ rempid w Hc)
    as (w' & Hrun & Hfr & Hbrk & Hst & Hmem); [by eapply chain_length|].
  rewrite decide_True in Hst by done.
  assert (registry_ok w' []) as Hok'.
  { split_and!; [by rewrite Hbrk| |by rewrite Hst].
    intros a n Ha. rewrite Hbrk. apply (Hm a n).
    rewrite Hmem in Ha. by case_decide. }
  exists w'. split_and!; try done.
  intros q. rewrite (pidlist_find_ok _ _ _ Hok').
  by rewrite decide_False by apply not_elem_of_nil.
Qed.

Lemma pidlist_remove_tracked_empties_list_witness :
  let w := world_of (run_ops [Add 1; Add 2; Add 1]
                       (boot (mk_os false [] [] [] [] None))) in
  registry_ok w [1; 2; 1] ∧ 1 ∈ [1; 2; 1] ∧
  ∃ w', pidlist_remove 1 w = Ret tt w' ∧
        pidlist_start w' = NULL ∧
        (∀ q, pidlist_find q w' = Ret 0 w') ∧
        mem w' !! 1%N = None ∧
        mem w' !! 2%N = Some (mk_pidlist 2 NULL 1%N) ∧
        mem w' !! 3%N = None.
Proof.
  assert (registry_ok (world_of (run_ops [Add 1; Add 2; Add 1]
            (boot (mk_os false [] [] [] [] None)))) [1; 2; 1]) as Hok.
  { apply (bool_decide_unpack _). vm_compute. exact I. }
  assert (1 ∈ [1; 2; 1]) as Hin by left.
  split; [exact Hok|]. split; [exact Hin|].
  destruct (pidlist_remove_tracked_empties_list _ _ 1 Hok Hin)
    as (w' & H1 & _ & H2 & _ & H3 & H4).
  exists w'. split_and!; [exact H1|exact H2|exact H3| | |].
  - rewrite H4. reflexivity.
  - rewrite H4. reflexivity.
  - rewrite H4. reflexivity.
Defined.

(** X4: [pidlist_find], and so [bb_is_running], only reads: in whatever
    state the heap is, it changes nothing, answers 0 or 1 when it returns,
    and otherwise ends in a fault of a memory read; on a well-formed
    registry it returns, 1 exactly for the tracked PIDs. *)
Theorem pidlist_find_only_reads (w : world) (findpid : Z) :
  match pidlist_find findpid w with
  | Ret v w' => w' = w ∧ (v = 0 ∨ v = 1)
  | Fault f w' => w' = w ∧ f ≠ IntOverflow
  | OutOfFuel w' => w' = w
  | _ => False
  end ∧
  bb_is_running findpid w = pidlist_find findpid w ∧
  ∀ l, registry_ok w l →
       pidlist_find findpid w = Ret (if decide (findpid ∈ l) then 1 else 0) w.
Proof.
  split_and!; [|done|intros l; apply pidlist_find_ok].
  unfold pidlist_find. munfold.
  generalize (size (mem w)) (pidlist_start w). intros fuel.
  induction fuel as [|fuel IH]; intros curr; simpl.
  - case_decide; simpl; [|done]. split; [done|by left].
  - case_decide; simpl; [split; [done|by left]|].
    unfold load. munfold. case_decide; [done|].
    destruct (mem w !! curr) as [n|]; simpl; [|done].
    case_decide; [|apply IH]. split; [done|by right].
Qed.

Lemma pidlist_find_only_reads_witness :
  let w := world_of (run_ops [Add 1; Add 2] (boot (mk_os false [] [] [] [] None))) in
  registry_ok w [2; 1] ∧
  pidlist_find 1 w = Ret 1 w ∧ pidlist_find 3 w = Ret 0 w.
Proof.
  intros w.
  assert (registry_ok w [2; 1]) as Hok.
  { apply (bool_decide_unpack _). vm_compute. exact I. }
  split; [exact Hok|]. split.
  - destruct (pidlist_find_only_reads w 1) as (_ & _ & H). exact (H _ Hok).
  - destruct (pidlist_find_only_reads w 3) as (_ & _ & H). exact (H _ Hok).
Defined.

(** ** The launcher *)

(** X5: [check_handler] installs the handler once.  With [handler_set]
    zero it calls [sigaction] for SIGCHLD and sets the flag; with the flag
    set it does nothing; so a second call changes nothing.  The registry
    is not touched. *)
Theorem check_handler_installs_once (w : world) :
  ∃ w1, check_handler w = Ret tt w1 ∧
        check_handler w1 = Ret tt w1 ∧
        same_registry w w1 ∧
        (handler_set w = 0 →
           handler_set w1 = 1 ∧ sa_sigchld (os w1) = true ∧
           sigactions (trace w1) = SIGCHLD :: sigactions (trace w)) ∧
        (handler_set w ≠ 0 → w1 = w).
Proof.
  unfold check_handler. destruct (decide (handler_set w = 0)) as [H0|H0].
  - eexists. split.
    { erewrite bind_Ret by reflexivity. rewrite decide_True by done. reflexivity. }
    split_and!; try done.
  - exists w. split_and!; try done.
    all: erewrite bind_Ret by reflexivity; by rewrite decide_False.
Qed.

Lemma check_handler_installs_once_witness :
  let w := boot (mk_os false [] [] [] [] None) in
  handler_set w = 0 ∧
  ∃ w1, check_handler w = Ret tt w1 ∧ check_handler w1 = Ret tt w1 ∧
        handler_set w1 = 1 ∧ sa_sigchld (os w1) = true ∧
        sigactions (trace w1) = [SIGCHLD].
Proof.
  intros w. split; [reflexivity|].
  destruct (check_handler_installs_once w) as (w1 & H1 & H2 & _ & H3 & _).
  destruct (H3 eq_refl) as (H4 & H5 & H6).
  exists w1. split_and!; [exact H1|exact H2|exact H4|exact H5|exact H6].
Defined.

Lemma check_handler_flag w w1 :
  check_handler w = Ret tt w1 → handler_set w1 ≠ 0.
Proof.
  unfold check_handler. erewrite bind_Ret by reflexivity.
  destruct (decide (handler_set w = 0)).
  - by intros [= <-].
  - by intros [= <-].
Qed.

Lemma fork_handler_set w r w2 :
  fork w = Ret r w2 → handler_set w2 = handler_set w.
Proof.
  unfold fork. munfold. simpl.
  destruct (decide (hd (-1) (fork_q (os w)) = 0));
    [|destruct (decide (hd (-1) (fork_q (os w)) > 0))];
    simpl; by intros [= _ <-].
Qed.

(** X6: a launch whose [fork] succeeds returns the PID of the child, has
    called [fork] once and logged the start, and has put the PID at the
    head of the registry before it returns: [bb_is_running] of it is 1. *)
Theorem bb_run_fork_success (argv : list string) (w : world) (l : list Z) :
  registry_ok w l → hd (-1) (fork_q (os w)) > 0 →
  let ret := hd (-1) (fork_q (os w)) in
  ∃ w', bb_run_fork argv w = Ret ret w' ∧
        registry_ok w' (ret :: l) ∧
        bb_is_running ret w' = Ret 1 w' ∧
        children (os w') = children (os w) ++ [ret] ∧
        zombies (os w') = zombies (os w) ∧
        fork_q (os w') = tl (fork_q (os w)) ∧
        handler_set w' ≠ 0 ∧
        trace w' = Log LOG_INFO MsgStarted [ArgStr (head argv); ArgInt ret]
                   :: SysFork
                   :: (if decide (handler_set w = 0) then [SysSigaction SIGCHLD]
                       else []) ++ trace w.
Proof.
  intros Hok Hret ret.
  destruct (check_handler_Ret w)
    as (w1 & Hcheck & Hreg1 & Hkids1 & Hz1 & Hq1 & _ & _ & Htr1).
  pose proof (check_handler_flag _ _ Hcheck) as Hflag.
  destruct (fork_Ret w1) as (w2 & Hfork & Hreg2 & Hq2 & _ & _ & Htr2 & _ & Hsucc).
  rewrite Hq1 in Hfork, Hsucc, Hq2. fold ret in Hfork, Hsucc.
  destruct (Hsucc Hret) as (Hkids2 & Hz2).
  set (w3 := emit (Log LOG_INFO MsgStarted [ArgStr (head argv); ArgInt ret]) w2).
  assert (registry_ok w3 l) as Hok3.
  { apply (registry_ok_same w2); [done|].
    apply (registry_ok_same w1); [done|]. by apply (registry_ok_same w). }
  assert (registry_ok (added ret w3) (ret :: l)) as Hok4
    by by apply registry_ok_added.
  assert (handler_set w2 = handler_set w1) as Hh2.
  { by eapply fork_handler_set. }
  exists (added ret w3). split_and!.
  - unfold bb_run_fork. erewrite bind_Ret by done. erewrite bind_Ret by done.
    rewrite decide_False by lia. rewrite decide_True by done.
    unfold bb_log. erewrite bind_Ret by reflexivity.
    erewrite bind_Ret by (apply pidlist_add_added, Hok3). done.
  - done.
  - rewrite (bb_is_running_ok _ _ _ Hok4). by rewrite decide_True by left.
  - simpl. congruence.
  - simpl. congruence.
  - simpl. congruence.
  - simpl. congruence.
  - simpl. by rewrite Htr2, Htr1.
Qed.

Lemma bb_run_fork_success_witness :
  let w := one_child [] in
  registry_ok w [1001] ∧
  hd (-1) (fork_q (os (set_os (set_fork_q [1002] (os w)) w))) > 0 ∧
  ∃ w', bb_run_fork ["sleep"; "3"] (set_os (set_fork_q [1002] (os w)) w)
        = Ret 1002 w' ∧
        registry_ok w' [1002; 1001] ∧
        bb_is_running 1002 w' = Ret 1 w' ∧
        children (os w') = [1001; 1002].
Proof.
  assert (registry_ok (set_os (set_fork_q [1002] (os (one_child []))) (one_child []))
            [1001]) as Hok.
  { apply (bool_decide_unpack _). vm_compute. exact I. }
  split; [apply (bool_decide_unpack _); vm_compute; exact I|].
  split; [reflexivity|].
  destruct (bb_run_fork_success ["sleep"; "3"] _ _ Hok eq_refl)
    as (w' & H1 & H2 & H3 & H4 & _).
  exists w'. split_and!; [exact H1|exact H2|exact H3|exact H4].
Defined.

Lemma bb_run_fork_ld_parent_aux argv ldpath w :
  hd (-1) (fork_q (os w)) ≠ 0 →
  bb_run_fork_ld argv ldpath w = bb_run_fork argv w.
Proof.
  intros Hret.
  destruct (check_handler_Ret w) as (w1 & Hcheck & _ & _ & _ & Hq1 & _).
  destruct (fork_Ret w1) as (w2 & Hfork & _). rewrite Hq1 in Hfork.
  assert (∀ k : unit → M Z, (check_handler ≫= k) w = k tt w1) as H1
    by (intros k; by apply bind_Ret).
  assert (∀ k : Z → M Z, (fork ≫= k) w1 = k (hd (-1) (fork_q (os w))) w2) as H2
    by (intros k; by apply bind_Ret).
  unfold bb_run_fork_ld, bb_run_fork. rewrite !H1, !H2.
  by rewrite !(decide_False (P := hd (-1) (fork_q (os w)) = 0)) by done.
Qed.

(** X7: in the parent, [bb_run_fork_ld] is [bb_run_fork]: whenever [fork]
    does not return 0, the two give the same result and the same state, so
    the library path never reaches the caller's environment. *)
Theorem bb_run_fork_ld_parent (argv : list string) (ldpath : string) (w : world) :
  hd (-1) (fork_q (os w)) ≠ 0 →
  bb_run_fork_ld argv ldpath w = bb_run_fork argv w.
Proof.
  intros Hret.
  destruct (check_handler_Ret w) as (w1 & Hcheck & _ & _ & _ & Hq1 & _).
  destruct (fork_Ret w1) as (w2 & Hfork & _). rewrite Hq1 in Hfork.
  unfold bb_run_fork_ld, bb_run_fork.
  rewrite !(bind_Ret check_handler _ w tt w1 Hcheck).
  rewrite !(bind_Ret fork _ w1 _ w2 Hfork).
  by rewrite !(decide_False (P := hd (-1) (fork_q (os w)) = 0)) by done.
Qed.

Lemma bb_run_fork_ld_parent_witness :
  let w := boot (mk_os false [] [] [] [1001] None) in
  hd (-1) (fork_q (os w)) ≠ 0 ∧
  bb_run_fork_ld ["glxgears"] "/usr/lib/nvidia" w = bb_run_fork ["glxgears"] w.
Proof.
  assert (hd (-1) (fork_q (os (boot (mk_os false [] [] [] [1001] None)))) ≠ 0)
    as Hret by (simpl; lia).
  split; [exact Hret|].
  exact (bb_run_fork_ld_parent ["glxgears"] "/usr/lib/nvidia" _ Hret).
Defined.

Lemma bb_run_exec_outcome argv w :
  bb_run_exec argv w
  = match exec_err (os w) with
    | None => Replaced (emit (SysExecvp (head argv) argv) w)
    | Some e =>
        Exited 42
          (emit (SysExit 42)
             (emit (Log LOG_ERR MsgExecFailed [ArgStr (head argv); ArgStrerror e])
                (emit (SysExecvp (head argv) argv) w)))
    end.
Proof.
  unfold bb_run_exec, execvp, errno, bb_log, exit. munfold.
  destruct (exec_err (os w)) as [e|] eqn:E; simpl; [|done]. by rewrite E.
Qed.

(** X8: as the child, no launch function comes back to its caller.  When
    [fork] returns 0 each of the three is [bb_run_exec] in the world of the
    child, which has no children of its own: the program is replaced, or
    the process exits with status 42.  [bb_run_fork_ld] first sets
    LD_LIBRARY_PATH, overwriting, in the child only. *)
Theorem launch_child_never_returns (argv : list string) (ldpath : string) (w : world) :
  hd (-1) (fork_q (os w)) = 0 →
  ∃ w2, same_registry w w2 ∧
        children (os w2) = [] ∧ zombies (os w2) = [] ∧
        exec_err (os w2) = exec_err (os w) ∧
        trace w2 = SysFork :: (if decide (handler_set w = 0)
                               then [SysSigaction SIGCHLD] else []) ++ trace w ∧
        bb_run_fork_wait argv w = bb_run_exec argv w2 ∧
        bb_run_fork argv w = (bb_run_exec argv ≫= λ _, mret 0) w2 ∧
        bb_run_fork_ld argv ldpath w
        = (bb_run_exec argv ≫= λ _, mret 0)
            (emit (SysSetenv "LD_LIBRARY_PATH" ldpath 1) w2) ∧
        ∀ w3, match bb_run_exec argv w3 with
              | Replaced _ => exec_err (os w3) = None
              | Exited code _ => code = 42 ∧ exec_err (os w3) ≠ None
              | _ => False
              end.
Proof.
  intros Hret.
  destruct (check_handler_Ret w)
    as (w1 & Hcheck & Hreg1 & _ & _ & Hq1 & He1 & _ & Htr1).
  assert (∃ w2, fork w1 = Ret 0 w2 ∧ same_registry w1 w2 ∧
                children (os w2) = [] ∧ zombies (os w2) = [] ∧
                exec_err (os w2) = exec_err (os w1) ∧
                trace w2 = SysFork :: trace w1)
    as (w2 & Hfork & Hreg2 & Hk2 & Hz2 & He2 & Htr2).
  { unfold fork. munfold. simpl. rewrite Hq1, Hret. rewrite decide_True by done.
    simpl. eexists. split; [reflexivity|]. by split_and!. }
  exists w2. split_and!; try done.
  - destruct Hreg1 as (? & ? & ?), Hreg2 as (? & ? & ?).
    unfold same_registry. split_and!; congruence.
  - congruence.
  - by rewrite Htr2, Htr1.
  - unfold bb_run_fork_wait. erewrite !bind_Ret by done.
    by rewrite decide_True by done.
  - unfold bb_run_fork. erewrite !bind_Ret by done.
    by rewrite decide_True by done.
  - unfold bb_run_fork_ld. erewrite !bind_Ret by done.
    rewrite decide_True by done. unfold setenv.
    by erewrite bind_Ret by reflexivity.
  - intros w3. rewrite bb_run_exec_outcome. by destruct (exec_err (os w3)).
Qed.

Lemma launch_child_never_returns_witness :
  let w := boot (mk_os false [] [] [] [0] None) in
  hd (-1) (fork_q (os w)) = 0 ∧
  ∃ w2, children (os w2) = [] ∧
        bb_run_fork_wait ["glxgears"] w = bb_run_exec ["glxgears"] w2 ∧
        bb_run_fork_ld ["glxgears"] "/usr/lib/nvidia" w
        = (bb_run_exec ["glxgears"] ≫= λ _, mret 0)
            (emit (SysSetenv "LD_LIBRARY_PATH" "/usr/lib/nvidia" 1) w2).
Proof.
  split; [reflexivity|].
  destruct (launch_child_never_returns ["glxgears"] "/usr/lib/nvidia"
              (boot (mk_os false [] [] [] [0] None)) eq_refl)
    as (w2 & _ & H1 & _ & _ & _ & H2 & _ & H3 & _).
  exists w2. split_and!; [exact H1|exact H2|exact H3].
Defined.

(** ** What an operation does not do *)

Global Instance same_on_refl {X} (f : list action → X) : Reflexive (same_on f).
Proof. by intros w. Qed.
Global Instance same_on_trans {X} (f : list action → X) : Transitive (same_on f).
Proof. unfold same_on. intros w1 w2 w3 H1 H2. by rewrite H2. Qed.

Lemma same_frame_on {X} (f : list action → X) w w' :
  same_frame w w' → same_on f w w'.
Proof.
  unfold same_frame, same_on. intros H.
  by replace (trace w') with (trace (frame w')) by done; rewrite H.
Qed.

Section trace_view.
Context {X : Type} (f : list action → X).
Context (Hlog : ∀ level msg args tr, f (Log level msg args :: tr) = f tr).
Context (Hwait : ∀ ret tr, f (SysWait ret :: tr) = f tr).
Context (Husleep : ∀ usec tr, f (SysUsleep usec :: tr) = f tr).

Lemma bb_log_view level msg args : respects (same_on f) (bb_log level msg args).
Proof. intros w. apply Hlog. Qed.

Lemma wait0_view : respects (same_on f) wait0.
Proof.
  intros w. unfold wait0, same_on.
  destruct (zombies (os w)); [|apply Hwait].
  destruct (children (os w)); [apply Hwait|].
  destruct (wait_blocked _ _) as [[? ?]|]; [apply Hwait|done].
Qed.

Lemma pidlist_remove_view rempid : respects (same_on f) (pidlist_remove rempid).
Proof. apply pidlist_remove_respects; [apply _..|apply same_frame_on]. Qed.

Lemma pidlist_add_view newpid : respects (same_on f) (pidlist_add newpid).
Proof. apply pidlist_add_respects; [apply _..|apply same_frame_on]. Qed.

Lemma bb_is_running_view proc : respects (same_on f) (bb_is_running proc).
Proof. intros w. by rewrite bb_is_running_same. Qed.

Lemma childsig_handler_view signum : respects (same_on f) (childsig_handler signum).
Proof.
  unfold childsig_handler.
  repeat first [apply wait0_view | apply pidlist_remove_view | apply bb_log_view
               | respects_step].
Qed.

Lemma usleep_run_view evs : respects (same_on f) (usleep_run evs).
Proof.
  induction evs as [|[p| |] evs IH]; cbn [usleep_run]; unfold modify_os.
  - by intros w.
  - solve_respects.
  - repeat first [apply childsig_handler_view | respects_step].
  - solve_respects.
Qed.

Lemma usleep_view usec : respects (same_on f) (usleep usec).
Proof.
  unfold usleep. repeat first [apply usleep_run_view | respects_step].
  apply respects_modify. intros w. apply Husleep.
Qed.

Lemma bb_run_fork_wait_loop_view fuel ret :
  respects (same_on f) (bb_run_fork_wait_loop fuel ret).
Proof.
  induction fuel as [|fuel IH]; cbn [bb_run_fork_wait_loop];
    repeat first [apply bb_is_running_view | apply usleep_view | respects_step].
Qed.
End trace_view.

Lemma execvp_on {X} (f : list action → X) file argv :
  (∀ tr, f (SysExecvp file argv :: tr) = f tr) →
  respects (same_on f) (execvp file argv).
Proof. intros H w. unfold execvp, same_on. destruct (exec_err (os w)); apply H. Qed.

Lemma exit_on {X A} (f : list action → X) code :
  (∀ tr, f (SysExit code :: tr) = f tr) →
  respects (same_on f) (exit (A:=A) code).
Proof. intros H w. apply H. Qed.

Lemma bb_run_exec_on {X} (f : list action → X) argv :
  (∀ level msg args tr, f (Log level msg args :: tr) = f tr) →
  (∀ file argv tr, f (SysExecvp file argv :: tr) = f tr) →
  (∀ code tr, f (SysExit code :: tr) = f tr) →
  respects (same_on f) (bb_run_exec argv).
Proof.
  intros Hlog Hexec Hexit. unfold bb_run_exec, errno.
  repeat first [apply execvp_on | apply exit_on | apply bb_log_view
               | respects_step]; auto.
Qed.

Lemma check_handler_on {X} (f : list action → X) :
  (∀ signum tr, f (SysSigaction signum :: tr) = f tr) →
  respects (same_on f) check_handler.
Proof.
  intros Hsig. unfold check_handler, sigaction, modify_os.
  repeat respects_step. apply respects_modify. intros w. apply Hsig.
Qed.

Lemma fork_on {X} (f : list action → X) :
  (∀ tr, f (SysFork :: tr) = f tr) → respects (same_on f) fork.
Proof.
  intros Hfork. unfold fork, modify_os.
  repeat respects_step. apply respects_modify. intros w. apply Hfork.
Qed.

Section launch_view.
Context {X : Type} (f : list action → X).
Context (Hlog : ∀ level msg args tr, f (Log level msg args :: tr) = f tr).
Context (Hwait : ∀ ret tr, f (SysWait ret :: tr) = f tr).
Context (Husleep : ∀ usec tr, f (SysUsleep usec :: tr) = f tr).
Context (Hexec : ∀ file argv tr, f (SysExecvp file argv :: tr) = f tr).
Context (Hexit : ∀ code tr, f (SysExit code :: tr) = f tr).
Context (Hsetenv : ∀ name value o tr, f (SysSetenv name value o :: tr) = f tr).

(** What the launch functions do once [fork] has returned [ret]. *)
Lemma bb_run_fork_rest argv (ret : Z) :
  respects (same_on f)
    (if decide (ret = 0) then bb_run_exec argv;; mret ret
     else if decide (ret > 0) then
       bb_log LOG_INFO MsgStarted [ArgStr (head argv); ArgInt ret];;
       pidlist_add ret;; mret ret
     else bb_log LOG_ERR MsgForkFailed [ArgStr (head argv)];; mret 0).
Proof.
  repeat first [apply bb_run_exec_on | apply bb_log_view | apply pidlist_add_view
               | respects_step]; auto.
Qed.

Lemma bb_run_fork_ld_rest argv ldpath (ret : Z) :
  respects (same_on f)
    (if decide (ret = 0) then
       setenv "LD_LIBRARY_PATH" ldpath 1;; bb_run_exec argv;; mret ret
     else if decide (ret > 0) then
       bb_log LOG_INFO MsgStarted [ArgStr (head argv); ArgInt ret];;
       pidlist_add ret;; mret ret
     else bb_log LOG_ERR MsgForkFailed [ArgStr (head argv)];; mret 0).
Proof.
  unfold setenv.
  repeat first [apply bb_run_exec_on | apply bb_log_view | apply pidlist_add_view
               | respects_step]; auto.
  apply respects_modify. intros w. apply Hsetenv.
Qed.

Lemma bb_run_fork_wait_rest argv (ret : Z) :
  respects (same_on f)
    (if decide (ret = 0) then bb_run_exec argv
     else if decide (ret > 0) then
       bb_log LOG_INFO MsgStarted [ArgStr (head argv); ArgInt ret];;
       pidlist_add ret;;
       fuel ← gets (λ w, S (length (sched (os w))));
       bb_run_fork_wait_loop fuel ret
     else bb_log LOG_ERR MsgForkFailed [ArgStr (head argv)]).
Proof.
  repeat first [apply bb_run_exec_on | apply bb_log_view | apply pidlist_add_view
               | apply bb_run_fork_wait_loop_view | respects_step]; auto.
Qed.

Context (Hsig : ∀ signum tr, f (SysSigaction signum :: tr) = f tr).
Context (Hfork : ∀ tr, f (SysFork :: tr) = f tr).

Lemma bb_run_fork_view argv : respects (same_on f) (bb_run_fork argv).
Proof.
  unfold bb_run_fork.
  apply respects_bind; [apply _|by apply check_handler_on|intros _].
  apply respects_bind; [apply _|by apply fork_on|intros ret].
  apply bb_run_fork_rest.
Qed.

Lemma bb_run_fork_ld_view argv ldpath :
  respects (same_on f) (bb_run_fork_ld argv ldpath).
Proof.
  unfold bb_run_fork_ld.
  apply respects_bind; [apply _|by apply check_handler_on|intros _].
  apply respects_bind; [apply _|by apply fork_on|intros ret].
  apply bb_run_fork_ld_rest.
Qed.

Lemma bb_run_fork_wait_view argv : respects (same_on f) (bb_run_fork_wait argv).
Proof.
  unfold bb_run_fork_wait.
  apply respects_bind; [apply _|by apply check_handler_on|intros _].
  apply respects_bind; [apply _|by apply fork_on|intros ret].
  apply bb_run_fork_wait_rest.
Qed.
End launch_view.

(** X9: only [bb_stop], [bb_stop_wait] and [bb_stop_all] send signals.
    Whatever the state and however they end, the three launch functions,
    [bb_is_running], [check_handler] and the handler send none. *)
Theorem only_the_terminator_signals
    (argv : list string) (ldpath : string) (proc signum : Z) (w : world) :
  kills (trace (world_of (bb_run_fork argv w))) = kills (trace w) ∧
  kills (trace (world_of (bb_run_fork_ld argv ldpath w))) = kills (trace w) ∧
  kills (trace (world_of (bb_run_fork_wait argv w))) = kills (trace w) ∧
  kills (trace (world_of (bb_is_running proc w))) = kills (trace w) ∧
  kills (trace (world_of (check_handler w))) = kills (trace w) ∧
  kills (trace (world_of (childsig_handler signum w))) = kills (trace w).
Proof.
  split_and!.
  - by apply (bb_run_fork_view kills).
  - by apply (bb_run_fork_ld_view kills).
  - by apply (bb_run_fork_wait_view kills).
  - by rewrite bb_is_running_same.
  - by apply (check_handler_on kills).
  - by apply (childsig_handler_view kills).
Qed.

Section stop_view.
Context {X : Type} (f : list action → X).
Context (Hlog : ∀ level msg args tr, f (Log level msg args :: tr) = f tr).
Context (Hwait : ∀ ret tr, f (SysWait ret :: tr) = f tr).
Context (Husleep : ∀ usec tr, f (SysUsleep usec :: tr) = f tr).
Context (Hkill : ∀ pid sig tr, f (SysKill pid sig :: tr) = f tr).

Lemma kill_view pid sig : respects (same_on f) (kill pid sig).
Proof. intros w. apply Hkill. Qed.

Lemma bb_stop_view proc : respects (same_on f) (bb_stop proc).
Proof.
  unfold bb_stop.
  repeat first [apply bb_is_running_view | apply kill_view | respects_step].
Qed.

Lemma bb_stop_wait_loop_view fuel proc i :
  respects (same_on f) (bb_stop_wait_loop fuel proc i).
Proof.
  revert i. induction fuel as [|fuel IH]; intros i; cbn [bb_stop_wait_loop];
    unfold incr;
    repeat first [apply bb_is_running_view | apply kill_view | apply usleep_view
                 | apply IH | respects_step].
Qed.

Lemma bb_stop_wait_view proc : respects (same_on f) (bb_stop_wait proc).
Proof.
  unfold bb_stop_wait.
  repeat first [apply bb_stop_wait_loop_view | respects_step].
Qed.

Lemma bb_stop_all_loop_view fuel nxt :
  respects (same_on f) (bb_stop_all_loop fuel nxt).
Proof.
  revert nxt. induction fuel as [|fuel IH]; intros nxt; cbn [bb_stop_all_loop];
    repeat first [apply bb_stop_wait_view | apply IH
                 | apply load_respects; apply _
                 | respects_step].
Qed.

Lemma bb_stop_all_view : respects (same_on f) bb_stop_all.
Proof.
  unfold bb_stop_all.
  repeat first [apply bb_stop_all_loop_view | respects_step].
Qed.
End stop_view.

(** X10: every call of a launch function calls [fork] exactly once,
    whether the call returns, ends as the child or is still waiting; and
    nothing else in the file forks. *)
Theorem fork_once_per_launch
    (argv : list string) (ldpath : string) (proc signum : Z) (w : world) :
  forks (trace (world_of (bb_run_fork argv w))) = S (forks (trace w)) ∧
  forks (trace (world_of (bb_run_fork_ld argv ldpath w))) = S (forks (trace w)) ∧
  forks (trace (world_of (bb_run_fork_wait argv w))) = S (forks (trace w)) ∧
  forks (trace (world_of (bb_is_running proc w))) = forks (trace w) ∧
  forks (trace (world_of (bb_stop proc w))) = forks (trace w) ∧
  forks (trace (world_of (bb_stop_wait proc w))) = forks (trace w) ∧
  forks (trace (world_of (bb_stop_all w))) = forks (trace w) ∧
  forks (trace (world_of (childsig_handler signum w))) = forks (trace w).
Proof.
  destruct (check_handler_Ret w) as (w1 & Hcheck & _ & _ & _ & Hq1 & _).
  pose proof (check_handler_on forks (λ _ _, eq_refl) w) as H1.
  rewrite Hcheck in H1. unfold same_on in H1. simpl in H1.
  destruct (fork_Ret w1) as (w2 & Hfork & _ & _ & _ & _ & Htr2 & _).
  assert (forks (trace w2) = S (forks (trace w))) as H2
    by by rewrite Htr2, <- H1.
  split_and!.
  - unfold bb_run_fork. rewrite world_of_bind, Hcheck, world_of_bind, Hfork.
    rewrite <- H2. by apply (bb_run_fork_rest forks).
  - unfold bb_run_fork_ld. rewrite world_of_bind, Hcheck, world_of_bind, Hfork.
    rewrite <- H2. by apply (bb_run_fork_ld_rest forks).
  - unfold bb_run_fork_wait. rewrite world_of_bind, Hcheck, world_of_bind, Hfork.
    rewrite <- H2. by apply (bb_run_fork_wait_rest forks).
  - by rewrite bb_is_running_same.
  - by apply (bb_stop_view forks).
  - by apply (bb_stop_wait_view forks).
  - by apply (bb_stop_all_view forks).
  - by apply (childsig_handler_view forks).
Qed.

(** ** The terminator *)

Lemma bb_stop_signals_tracked_once_aux w l proc :
  registry_ok w l →
  bb_stop proc w
  = Ret tt (if decide (proc ∈ l) then emit (SysKill proc SIGTERM) w else w).
Proof.
  intros Hok. unfold bb_stop.
  erewrite bind_Ret by (by apply bb_is_running_ok).
  by destruct (decide (proc ∈ l)).
Qed.

(** X11: [bb_stop] never waits and never touches the registry: it sends
    one SIGTERM to a tracked PID and does nothing at all for any other. *)
Theorem bb_stop_signals_tracked_once (w : world) (l : list Z) (proc : Z) :
  registry_ok w l →
  bb_stop proc w
  = Ret tt (if decide (proc ∈ l) then emit (SysKill proc SIGTERM) w else w).
Proof.
  intros Hok. unfold bb_stop.
  rewrite (bind_Ret _ _ _ _ _ (bb_is_running_ok w l proc Hok)).
  destruct (decide (proc ∈ l)) as [Hin|Hin].
  - by rewrite decide_False.
  - by rewrite decide_True.
Qed.

Lemma bb_stop_signals_tracked_once_witness :
  let w := two_children [] in
  registry_ok w [1002; 1001] ∧
  bb_stop 1001 w = Ret tt (emit (SysKill 1001 SIGTERM) w) ∧
  bb_stop 4242 w = Ret tt w.
Proof.
  assert (registry_ok (two_children []) [1002; 1001]) as Hok.
  { apply (bool_decide_unpack _). vm_compute. exact I. }
  split; [exact Hok|]. split.
  - exact (bb_stop_signals_tracked_once _ _ 1001 Hok).
  - exact (bb_stop_signals_tracked_once _ _ 4242 Hok).
Defined.

(** X12: [bb_stop_wait] of a PID that is not tracked returns at once: no
    signal, no sleep, no change. *)
Theorem bb_stop_wait_untracked_returns (w : world) (l : list Z) (proc : Z) :
  registry_ok w l → proc ∉ l → bb_stop_wait proc w = Ret tt w.
Proof.
  intros Hok Hnot. unfold bb_stop_wait. erewrite bind_Ret by reflexivity.
  cbn [bb_stop_wait_loop].
  erewrite bind_Ret by (by apply bb_is_running_ok).
  by rewrite (decide_False (P := proc ∈ l)) by done.
Qed.

Lemma bb_stop_wait_untracked_returns_witness :
  let w := two_children [Tick] in
  registry_ok w [1002; 1001] ∧ (4242 ∉ [1002; 1001]) ∧
  bb_stop_wait 4242 w = Ret tt w.
Proof.
  assert (registry_ok (two_children [Tick]) [1002; 1001]) as Hok.
  { apply (bool_decide_unpack _). vm_compute. exact I. }
  assert (4242 ∉ [1002; 1001]) as Hnot.
  { apply (bool_decide_unpack _). vm_compute. exact I. }
  split; [exact Hok|]. split; [exact Hnot|].
  exact (bb_stop_wait_untracked_returns _ _ 4242 Hok Hnot).
Defined.

Lemma bb_stop_wait_loop_kills_app proc fuel i w :
  ∃ tr, kills (trace (world_of (bb_stop_wait_loop fuel proc i w)))
        = tr ++ kills (trace w).
Proof.
  destruct (bb_stop_wait_loop_kills proc fuel i w) as (n & Hn).
  eexists. apply (f_equal reverse) in Hn.
  rewrite reverse_app, !reverse_involutive in Hn. exact Hn.
Qed.

(** X13: [bb_stop_wait] of a tracked PID begins with a SIGTERM to it; and
    when it returns, the registry tracks nothing any more, neither this PID
    nor any other that was tracked. *)
Theorem bb_stop_wait_tracked (w : world) (l : list Z) (proc : Z) :
  registry_ok w l → proc ∈ l →
  (∃ tr, kills (trace (world_of (bb_stop_wait proc w)))
         = tr ++ (proc, SIGTERM) :: kills (trace w)) ∧
  (∀ w', bb_stop_wait proc w = Ret tt w' →
         registry_ok w' [] ∧ ∀ q, bb_is_running q w' = Ret 0 w').
Proof.
  intros Hok Hin. split.
  - unfold bb_stop_wait. erewrite bind_Ret by reflexivity.
    cbn [bb_stop_wait_loop].
    erewrite bind_Ret by (by apply bb_is_running_ok).
    rewrite (decide_True (P := proc ∈ l)) by done.
    rewrite (decide_False (P := 1 = 0)) by done.
    erewrite bind_Ret by reflexivity.
    rewrite (decide_True (P := 0 + 1 < 10)) by done.
    erewrite bind_Ret by reflexivity.
    set (w2 := emit (SysKill proc SIGTERM) w).
    rewrite world_of_bind.
    pose proof (usleep_kills 1000000 w2) as Hsleep. unfold same_kills in Hsleep.
    destruct (usleep 1000000 w2) as [[] w3| | | | |]; simpl in Hsleep;
      try (exists []; exact Hsleep).
    destruct (bb_stop_wait_loop_kills_app proc (length (sched (os w))) (0 + 1) w3)
      as (tr & Htr).
    exists tr. by rewrite Htr, Hsleep.
  - intros w' Hrun. pose proof (bb_stop_wait_ok w l proc Hok) as H.
    rewrite Hrun in H. destruct H as ([Hok'|Hok'] & Hgone).
    + rewrite (bb_is_running_ok _ _ _ Hok'), decide_True in Hgone by done.
      discriminate.
    + split; [done|]. intros q. rewrite (bb_is_running_ok _ _ _ Hok').
      by rewrite decide_False by apply not_elem_of_nil.
Qed.

Lemma bb_stop_wait_tracked_witness :
  let w := two_children [ChildExits 1001; Sigchld] in
  registry_ok w [1002; 1001] ∧ 1001 ∈ [1002; 1001] ∧
  (∃ tr, kills (trace (world_of (bb_stop_wait 1001 w)))
         = tr ++ (1001, SIGTERM) :: kills (trace w)) ∧
  (∀ w', bb_stop_wait 1001 w = Ret tt w' →
         registry_ok w' [] ∧ ∀ q, bb_is_running q w' = Ret 0 w').
Proof.
  assert (registry_ok (two_children [ChildExits 1001; Sigchld]) [1002; 1001])
    as Hok.
  { apply (bool_decide_unpack _). vm_compute. exact I. }
  assert (1001 ∈ [1002; 1001]) as Hin by (right; left).
  split; [exact Hok|]. split; [exact Hin|].
  exact (bb_stop_wait_tracked _ _ 1001 Hok Hin).
Defined.

Lemma bb_stop_wait_kills_to proc w :
  ∃ tr, kills (trace (world_of (bb_stop_wait proc w))) = tr ++ kills (trace w) ∧
        ∀ pid sig, (pid, sig) ∈ tr → pid = proc.
Proof.
  unfold bb_stop_wait. rewrite world_of_bind. cbn [gets world_of].
  destruct (bb_stop_wait_loop_kills proc (S (length (sched (os w)))) 0 w)
    as (n & Hn).
  eexists. split.
  - apply (f_equal reverse) in Hn.
    rewrite reverse_app, !reverse_involutive in Hn. exact Hn.
  - intros pid sig Hin. apply elem_of_reverse, list_elem_of_fmap in Hin.
    by destruct Hin as (k & [= -> _] & _).
Qed.

(** X14: with two or more PIDs tracked, [bb_stop_all] does not return.
    It signals the first PID only; while that one stays tracked it waits,
    and once the reaper has removed an entry the second round reads
    through the null list head. *)
Theorem bb_stop_all_two_or_more (w : world) (p q : Z) (l : list Z) :
  registry_ok w (p :: q :: l) →
  match bb_stop_all w with
  | Waiting w' => registry_ok w' (p :: q :: l)
  | Fault f w' =>
      (f = IntOverflow ∧ INT_MAX ≤ Z.of_nat (length (sched (os w)))) ∨
      (f = NullDeref ∧ registry_ok w' [])
  | _ => False
  end ∧
  ∃ tr, kills (trace (world_of (bb_stop_all w))) = tr ++ kills (trace w) ∧
        ∀ pid sig, (pid, sig) ∈ tr → pid = p.
Proof.
  intros Hok.
  destruct (bb_stop_all_unfold w p (q :: l) Hok) as (n & Hn & HP & Hc & Heq).
  rewrite Heq. clear Heq.
  assert (next n ≠ NULL) as Hnext by (by destruct Hc).
  assert (size (mem w) ≠ O) as Hsize.
  { destruct Hok as (_ & _ & Hch). apply chain_length in Hch. simpl in Hch. lia. }
  assert (∀ w1, registry_ok w1 [] →
            bb_stop_all_loop (size (mem w)) (next n) w1 = Fault NullDeref w1)
    as Hloop.
  { intros w1 (_ & _ & Hc1). simpl in Hc1.
    destruct (size (mem w)) as [|fuel]; [done|]. cbn [bb_stop_all_loop].
    rewrite decide_False by done. erewrite bind_Ret by reflexivity.
    rewrite Hc1. by munfold. }
  pose proof (bb_stop_wait_ok w _ p Hok) as Hwait.
  destruct (bb_stop_wait_kills_to p w) as (tr & Htr & Hto).
  munfold. destruct (bb_stop_wait p w) as [[] w1| | |w1|f w1|]; try done.
  - destruct Hwait as ([Hok1|Hok1] & Hgone).
    { rewrite (bb_is_running_ok _ _ _ Hok1), decide_True in Hgone by left.
      discriminate. }
    rewrite (Hloop _ Hok1). split; [by right|by exists tr].
  - split; [by destruct Hwait|by exists tr].
  - split; [by left|by exists tr].
Qed.

Lemma bb_stop_all_two_or_more_witness :
  let w := two_children [ChildExits 1002; Sigchld; ChildExits 1001; Sigchld] in
  registry_ok w [1002; 1001] ∧
  match bb_stop_all w with
  | Waiting w' => registry_ok w' [1002; 1001]
  | Fault f w' =>
      (f = IntOverflow ∧ INT_MAX ≤ Z.of_nat (length (sched (os w)))) ∨
      (f = NullDeref ∧ registry_ok w' [])
  | _ => False
  end.
Proof.
  intros w.
  assert (registry_ok w [1002; 1001]) as Hok.
  { apply (bool_decide_unpack _). vm_compute. exact I. }
  split; [exact Hok|].
  destruct (bb_stop_all_two_or_more w 1002 1001 [] Hok) as [H _]. exact H.
Defined.

(** ** [bb_run_fork_wait] *)

Lemma bb_run_fork_wait_loop_ok l ret fuel w :
  tracks_or_empty l w →
  (length (sched (os w)) < fuel)%nat →
  match bb_run_fork_wait_loop fuel ret w with
  | Ret _ w' => tracks_or_empty l w' ∧ bb_is_running ret w' = Ret 0 w'
  | Waiting w' => registry_ok w' l ∧ ret ∈ l
  | _ => False
  end.
Proof.
  revert w. induction fuel as [|fuel IH]; intros w Htr Hfuel; [lia|].
  cbn [bb_run_fork_wait_loop].
  destruct (tracks_or_empty_running w l ret Htr) as [(Hrun & Hok & Hin)|Hrun];
    erewrite bind_Ret by done; simpl; [|done].
  pose proof (usleep_ok 1000000 w l Hok) as Hsleep.
  munfold. destruct (usleep 1000000 w) as [[] w1| | |w1| |];
    simpl in Hsleep; try done.
  destruct Hsleep as (Htr1 & Hlen). apply IH; [done|lia].
Qed.

(** X15: [bb_run_fork_wait] after a successful [fork] returns only when
    the registry tracks nothing any more, the new PID or any other; until
    then it sleeps, with the new PID tracked.  When [fork] fails it does
    what [bb_run_fork] does and returns at once. *)
Theorem bb_run_fork_wait_blocks (argv : list string) (w : world) (l : list Z) :
  registry_ok w l →
  (hd (-1) (fork_q (os w)) > 0 →
   match bb_run_fork_wait argv w with
   | Ret _ w' => registry_ok w' [] ∧ ∀ q, bb_is_running q w' = Ret 0 w'
   | Waiting w' => registry_ok w' (hd (-1) (fork_q (os w)) :: l)
   | _ => False
   end) ∧
  (hd (-1) (fork_q (os w)) < 0 →
   ∃ w', bb_run_fork argv w = Ret 0 w' ∧ bb_run_fork_wait argv w = Ret tt w').
Proof.
  intros Hok.
  destruct (check_handler_Ret w) as (w1 & Hcheck & Hreg1 & _ & _ & Hq1 & _).
  destruct (fork_Ret w1) as (w2 & Hfork & Hreg2 & _).
  rewrite Hq1 in Hfork. set (ret := hd (-1) (fork_q (os w))) in *.
  split.
  - intros Hret.
    set (w3 := emit (Log LOG_INFO MsgStarted [ArgStr (head argv); ArgInt ret]) w2).
    assert (registry_ok w3 l) as Hok3.
    { apply (registry_ok_same w2); [done|].
      apply (registry_ok_same w1); [done|]. by apply (registry_ok_same w). }
    assert (registry_ok (added ret w3) (ret :: l)) as Hok4
      by by apply registry_ok_added.
    assert (bb_run_fork_wait argv w
            = bb_run_fork_wait_loop (S (length (sched (os (added ret w3))))) ret
                (added ret w3)) as ->.
    { unfold bb_run_fork_wait. erewrite bind_Ret by done. erewrite bind_Ret by done.
      rewrite decide_False by lia. rewrite decide_True by done.
      unfold bb_log. erewrite bind_Ret by reflexivity.
      erewrite bind_Ret by (apply pidlist_add_added, Hok3).
      by erewrite bind_Ret by reflexivity. }
    pose proof (bb_run_fork_wait_loop_ok (ret :: l) ret
                  (S (length (sched (os (added ret w3))))) (added ret w3)
                  (or_introl Hok4) ltac:(lia)) as H.
    destruct (bb_run_fork_wait_loop _ ret (added ret w3)) as [[] w'| | |w'| |];
      try done; [|by destruct H].
    destruct H as ([Hok'|Hok'] & Hgone).
    { rewrite (bb_is_running_ok _ _ _ Hok'), decide_True in Hgone by left.
      discriminate. }
    split; [done|]. intros q. rewrite (bb_is_running_ok _ _ _ Hok').
    by rewrite decide_False by apply not_elem_of_nil.
  - intros Hret. eexists. split.
    + unfold bb_run_fork. erewrite bind_Ret by done. erewrite bind_Ret by done.
      rewrite !decide_False by lia. reflexivity.
    + unfold bb_run_fork_wait. erewrite bind_Ret by done. erewrite bind_Ret by done.
      rewrite !decide_False by lia. reflexivity.
Qed.

Lemma bb_run_fork_wait_blocks_witness :
  let w := set_os (mk_os true [1001] [] [Tick; ChildExits 1001; Sigchld]
                     [1002] None) (one_child []) in
  registry_ok w [1001] ∧
  hd (-1) (fork_q (os w)) > 0 ∧
  match bb_run_fork_wait ["sleep"; "3"] w with
  | Ret _ w' => registry_ok w' [] ∧ ∀ q, bb_is_running q w' = Ret 0 w'
  | Waiting w' => registry_ok w' [1002; 1001]
  | _ => False
  end.
Proof.
  intros w.
  assert (registry_ok w [1001]) as Hok.
  { apply (bool_decide_unpack _). vm_compute. exact I. }
  split; [exact Hok|]. split; [reflexivity|].
  destruct (bb_run_fork_wait_blocks ["sleep"; "3"] w [1001] Hok) as [H _].
  exact (H eq_refl).
Defined.

(** ** Sessions *)

Lemma session_inv_keep w w' l l' :
  session_inv w l → registry_ok w' l' → l' ⊆ l →
  (∀ p, p ∈ l' → p ∈ children (os w') ∨ p ∈ zombies (os w')) →
  handler_set w' = handler_set w →
  sa_sigchld (os w') = sa_sigchld (os w) →
  sigactions (trace w') = sigactions (trace w) →
  session_inv w' l'.
Proof.
  intros (_ & Hpos & _ & Hhs & Hsa & Htr) Hok Hsub Hkids Hh Hs Ht.
  unfold session_inv. rewrite Hh, Hs, Ht. split_and!; try done.
  intros p Hp. apply Hpos, Hsub, Hp.
Qed.

(** The handler after its [wait] has given [z] and left the system in
    state [o']. *)
Lemma reap_session w l z o' :
  session_inv w l →
  sa_sigchld o' = sa_sigchld (os w) →
  (∀ p, p ∈ l → p ≠ z → p ∈ children o' ∨ p ∈ zombies o') →
  ∃ w' l',
    pidlist_remove z (emit (Log LOG_DEBUG MsgTerminated [ArgInt z])
                        (emit (SysWait z) (set_os o' w))) = Ret tt w' ∧
    session_inv w' l' ∧ sched (os w') = sched o'.
Proof.
  intros Hinv Hsa Hkids. set (w2 := emit _ _).
  assert (registry_ok w2 l) as Hok2
    by (apply (registry_ok_frame w); try done; apply Hinv).
  destruct (pidlist_remove_registry w2 l z Hok2) as (w' & Hrun & Hfr & Hreg).
  assert (os w' = o') as Hos.
  { replace (os w') with (os (frame w')) by done. by rewrite Hfr. }
  assert (trace w' = trace w2) as Htr.
  { replace (trace w') with (trace (frame w')) by done. by rewrite Hfr. }
  assert (handler_set w' = handler_set w) as Hh.
  { replace (handler_set w') with (handler_set (frame w')) by done. by rewrite Hfr. }
  destruct (decide (z ∈ l)) as [Hin|Hin].
  - exists w', []. split_and!; [done| |by rewrite Hos].
    apply (session_inv_keep w w' l []); [done|done| | |done| |].
    + apply list_subseteq_nil.
    + intros p Hp. by apply not_elem_of_nil in Hp.
    + by rewrite Hos.
    + by rewrite Htr.
  - exists w', l. subst w'. split_and!; [done| |done].
    apply (session_inv_keep w w2 l l); [done|done|done| |done|done|done].
    intros p Hp. apply Hkids; [done|]. by intros ->.
Qed.

Lemma childsig_handler_session w l :
  session_inv w l →
  returns_or_waits (childsig_handler SIGCHLD w)
    (λ _ w', ∃ l', session_inv w' l') (λ w', session_inv w' l).
Proof.
  intros Hinv. pose proof Hinv as (Hok & Hpos & Hkids & _).
  unfold childsig_handler. rewrite decide_False by (by intros []).
  unfold bb_log.
  destruct (zombies (os w)) as [|z zs] eqn:Hz.
  - destruct (children (os w)) as [|kid kids] eqn:Hk.
    + erewrite bind_Ret by (unfold wait0; rewrite Hz, Hk; reflexivity).
      erewrite bind_Ret by reflexivity.
      destruct (reap_session w l (-1) (os w) Hinv eq_refl) as (w' & l' & Hrun & Hinv' & _).
      { intros p Hp _. rewrite ?Hz, ?Hk in Hkids. rewrite ?Hz, ?Hk. by apply Hkids. }
      replace (set_os (os w) w) with w in Hrun by by destruct w.
      rewrite Hrun. by exists l'.
    + destruct (wait_blocked (sched (os w)) (kid :: kids)) as [[p evs']|] eqn:Hb.
      * erewrite bind_Ret by (unfold wait0; rewrite Hz, Hk, Hb; reflexivity).
        erewrite bind_Ret by reflexivity.
        destruct (reap_session w l p
                    (set_sched evs' (set_children (filter (λ q, q ≠ p) (kid :: kids))
                                       (os w))) Hinv eq_refl)
          as (w' & l' & Hrun & Hinv' & _).
        { intros q Hq Hne. left. simpl. apply list_elem_of_filter. split; [done|].
          rewrite ?Hz, ?Hk in Hkids. destruct (Hkids q Hq) as [H|H]; [done|].
          by apply not_elem_of_nil in H. }
        rewrite Hrun. by exists l'.
      * unfold wait0. munfold. rewrite Hz, Hk, Hb. simpl.
        eapply session_inv_keep; try done. by destruct Hinv as (_ & _ & ? & _).
    - erewrite bind_Ret by (unfold wait0; rewrite Hz; reflexivity).
      erewrite bind_Ret by reflexivity.
      destruct (reap_session w l z (set_zombies zs (os w)) Hinv eq_refl)
        as (w' & l' & Hrun & Hinv' & _).
      { intros p Hp Hne. simpl. rewrite ?Hz in Hkids.
        destruct (Hkids p Hp) as [H|H]; [by left|].
        right. apply elem_of_cons in H as [->|H]; done. }
      rewrite Hrun. by exists l'.
Qed.

Lemma child_exits_keeps p q o :
  p ∈ children o ∨ p ∈ zombies o →
  p ∈ children (child_exits q o) ∨ p ∈ zombies (child_exits q o).
Proof.
  unfold child_exits. destruct (decide (q ∈ children o)); [|done]. simpl.
  intros [H|H].
  - destruct (decide (p = q)) as [->|Hne].
    + right. apply elem_of_app. right. by left.
    + left. by apply list_elem_of_filter.
  - right. apply elem_of_app. by left.
Qed.

Lemma child_exits_sa q o : sa_sigchld (child_exits q o) = sa_sigchld o.
Proof. unfold child_exits. by destruct (decide (q ∈ children o)). Qed.

Lemma usleep_run_session evs w l :
  session_inv w l →
  returns_or_waits (usleep_run evs w)
    (λ _ w', ∃ l', session_inv w' l') (λ w', session_inv w' l).
Proof.
  revert w. induction evs as [|[p| |] evs IH]; intros w Hinv;
    pose proof Hinv as (Hok & _ & Hkids & _).
  - simpl. eapply session_inv_keep; try done.
  - cbn [usleep_run]. erewrite bind_Ret by reflexivity. apply IH.
    eapply session_inv_keep; try done.
    + intros q Hq. simpl. by apply child_exits_keeps, Hkids.
    + apply child_exits_sa.
  - cbn [usleep_run]. erewrite bind_Ret by reflexivity.
    destruct (sa_sigchld (os w)) eqn:Hsa.
    + erewrite bind_Ret by reflexivity. apply childsig_handler_session.
      eapply session_inv_keep; try done.
    + by apply IH.
  - simpl. exists l. eapply session_inv_keep; try done.
Qed.

Lemma usleep_session usec w l :
  session_inv w l →
  returns_or_waits (usleep usec w)
    (λ _ w', (∃ l', session_inv w' l') ∧
             (length (sched (os w')) < length (sched (os w)))%nat)
    (λ w', session_inv w' l).
Proof.
  intros Hinv. pose proof Hinv as (Hok & _).
  pose proof (usleep_ok usec w l Hok) as H1.
  assert (session_inv (emit (SysUsleep usec) w) l) as Hinv2.
  { apply (session_inv_keep w _ l l Hinv); try done.
    by destruct Hinv as (_ & _ & ? & _). }
  pose proof (usleep_run_session (sched (os w)) _ l Hinv2) as H2.
  unfold usleep in *. munfold. simpl in *.
  destruct (usleep_run (sched (os w)) (emit (SysUsleep usec) w)); try done.
  simpl in *. split; [done|]. apply H1.
Qed.

Lemma session_end_bind {A B} (c : M A) (k : A → M B) w :
  match c w with
  | Ret v w1 => session_end (k v w1)
  | Exited code w1 => session_end (Exited (A:=B) code w1)
  | Replaced w1 => session_end (Replaced (A:=B) w1)
  | Waiting w1 => session_end (Waiting (A:=B) w1)
  | Fault f w1 => session_end (Fault (A:=B) f w1)
  | OutOfFuel w1 => False
  end →
  session_end ((c ≫= k) w).
Proof. munfold. by destruct (c w). Qed.

Lemma session_inv_emit a w l :
  session_inv w l → sigactions (trace (emit a w)) = sigactions (trace w) →
  session_inv (emit a w) l.
Proof.
  intros Hinv Ha. apply (session_inv_keep w _ l l Hinv); try done.
  - apply (registry_ok_frame w); try done. apply Hinv.
  - by destruct Hinv as (_ & _ & ? & _).
Qed.

Lemma bb_stop_wait_loop_session l proc fuel i w :
  session_inv w l → (length (sched (os w)) < fuel)%nat →
  session_end (bb_stop_wait_loop fuel proc i w).
Proof.
  revert i w l. induction fuel as [|fuel IH]; intros i w l Hinv Hfuel; [lia|].
  pose proof Hinv as (Hok & _).
  cbn [bb_stop_wait_loop].
  erewrite bind_Ret by (by apply bb_is_running_ok).
  destruct (decide (proc ∈ l)) as [Hin|Hin]; simpl; [|by exists l].
  unfold incr. destruct (decide (i = INT_MAX)); [done|].
  erewrite bind_Ret by reflexivity.
  assert (∀ sig, session_end
            ((kill proc sig ≫= λ _, usleep 1000000 ≫= λ _,
              bb_stop_wait_loop fuel proc (i + 1)) w)) as Hrest.
  { intros sig. unfold kill. erewrite bind_Ret by reflexivity.
    assert (session_inv (emit (SysKill proc sig) w) l) as Hinv2
      by by apply session_inv_emit.
    pose proof (usleep_session 1000000 _ l Hinv2) as Hsleep.
    apply session_end_bind.
    destruct (usleep 1000000 (emit (SysKill proc sig) w)) as [[] w1| | |w1| |];
      simpl in Hsleep; try done.
    - destruct Hsleep as ((l1 & Hinv1) & Hlen). simpl in Hlen.
      apply (IH _ _ l1); [done|lia].
    - by exists l. }
  destruct (decide (i + 1 < 10)); apply Hrest.
Qed.

Lemma bb_run_fork_wait_loop_session l ret fuel w :
  session_inv w l → (length (sched (os w)) < fuel)%nat →
  session_end (bb_run_fork_wait_loop fuel ret w).
Proof.
  revert w l. induction fuel as [|fuel IH]; intros w l Hinv Hfuel; [lia|].
  pose proof Hinv as (Hok & _).
  cbn [bb_run_fork_wait_loop].
  erewrite bind_Ret by (by apply bb_is_running_ok).
  destruct (decide (ret ∈ l)) as [Hin|Hin]; simpl; [|by exists l].
  pose proof (usleep_session 1000000 _ l Hinv) as Hsleep.
  apply session_end_bind.
  destruct (usleep 1000000 w) as [[] w1| | |w1| |]; simpl in Hsleep; try done.
  - destruct Hsleep as ((l1 & Hinv1) & Hlen). apply (IH _ l1); [done|lia].
  - by exists l.
Qed.

Lemma check_handler_session w l :
  session_inv w l →
  ∃ w1, check_handler w = Ret tt w1 ∧ session_inv w1 l ∧
        fork_q (os w1) = fork_q (os w).
Proof.
  intros Hinv. pose proof Hinv as (Hok & Hpos & Hkids & Hhs & Hsa & Htr).
  unfold check_handler. erewrite bind_Ret by reflexivity.
  destruct (decide (handler_set w = 0)) as [H0|H0].
  - eexists. split; [reflexivity|]. split; [|done].
    unfold session_inv. simpl. rewrite Htr.
    split_and!; try done; try (by right); by apply (registry_ok_frame w).
  - exists w. by split_and!.
Qed.

(** [fork] in the parent: the new child, if there is one, runs. *)
Lemma fork_session w l :
  session_inv w l → hd (-1) (fork_q (os w)) ≠ 0 →
  ∃ w2, fork w = Ret (hd (-1) (fork_q (os w))) w2 ∧ session_inv w2 l ∧
        (hd (-1) (fork_q (os w)) > 0 →
         hd (-1) (fork_q (os w)) ∈ children (os w2)).
Proof.
  intros Hinv Hret. pose proof Hinv as (Hok & Hpos & Hkids & _).
  unfold fork. munfold. simpl. rewrite decide_False by done.
  destruct (decide (hd (-1) (fork_q (os w)) > 0)); simpl;
    eexists; (split; [reflexivity|]); split.
  - apply (session_inv_keep w _ l l Hinv); try done;
      first [ by apply (registry_ok_frame w)
            | intros p Hp; simpl; destruct (Hkids p Hp) as [H|H]; [|by right];
              left; apply elem_of_app; by left ].
  - intros _. simpl. apply elem_of_app. right. by left.
  - apply (session_inv_keep w _ l l Hinv); try done;
      by apply (registry_ok_frame w).
  - lia.
Qed.

(** [fork] in the child. *)
Lemma fork_child w l :
  registry_ok w l → hd (-1) (fork_q (os w)) = 0 →
  ∃ w2, fork w = Ret 0 w2 ∧ registry_ok w2 l.
Proof.
  intros Hok Hret. unfold fork. munfold. simpl. rewrite Hret.
  rewrite decide_True by done. simpl. eexists. split; [reflexivity|].
  by apply (registry_ok_frame w).
Qed.

Lemma bb_run_exec_session argv w l :
  registry_ok w l → session_end (bb_run_exec argv w).
Proof.
  intros Hok. rewrite bb_run_exec_outcome. destruct (exec_err (os w)); simpl.
  - split; [done|]. exists l. by apply (registry_ok_frame w).
  - exists l. by apply (registry_ok_frame w).
Qed.

(** After a successful [fork] that gave [ret]: the log line and
    [pidlist_add]. *)
Lemma register_session argv ret w l :
  session_inv w l → ret > 0 → ret ∈ children (os w) →
  ∃ w', (bb_log LOG_INFO MsgStarted [ArgStr (head argv); ArgInt ret] ≫= λ _,
         pidlist_add ret) w = Ret tt w' ∧
        session_inv w' (ret :: l).
Proof.
  intros Hinv Hret Hkid. pose proof Hinv as (Hok & Hpos & Hkids & Hhs & Hsa & Htr).
  set (w3 := emit (Log LOG_INFO MsgStarted [ArgStr (head argv); ArgInt ret]) w).
  assert (registry_ok w3 l) as Hok3 by by apply (registry_ok_frame w).
  exists (added ret w3). split.
  - unfold bb_log. erewrite bind_Ret by reflexivity.
    apply pidlist_add_added, Hok3.
  - unfold session_inv. split_and!; try done.
    + by apply registry_ok_added.
    + intros p [->|Hp]%elem_of_cons; [lia|by apply Hpos].
    + intros p [->|Hp]%elem_of_cons; [by left|by apply Hkids].
Qed.

Lemma bb_run_fork_session argv w l :
  session_inv w l → session_end (bb_run_fork argv w).
Proof.
  intros Hinv.
  destruct (check_handler_session w l Hinv) as (w1 & Hcheck & Hinv1 & Hq1).
  unfold bb_run_fork. erewrite bind_Ret by done.
  destruct (decide (hd (-1) (fork_q (os w1)) = 0)) as [H0|H0].
  - destruct (fork_child w1 l (proj1 Hinv1) H0) as (w2 & Hfork & Hok2).
    erewrite bind_Ret by done. rewrite decide_True by done.
    apply session_end_bind.
    pose proof (bb_run_exec_session argv w2 l Hok2) as H.
    by destruct (bb_run_exec argv w2).
  - destruct (fork_session w1 l Hinv1 H0) as (w2 & Hfork & Hinv2 & Hkid).
    erewrite bind_Ret by done. rewrite decide_False by done.
    destruct (decide (hd (-1) (fork_q (os w1)) > 0)) as [Hpos|Hneg].
    + destruct (register_session argv _ w2 l Hinv2 Hpos (Hkid Hpos))
        as (w' & Hrun & Hinv').
      munfold. unfold mbind, M_bind in Hrun.
      destruct (bb_log _ _ _ w2) as [[] w3| | | | |]; try done.
      rewrite Hrun. by eexists.
    + unfold bb_log. erewrite bind_Ret by reflexivity. simpl.
      exists l. by apply session_inv_emit.
Qed.

Lemma bb_run_fork_ld_session argv ldpath w l :
  session_inv w l → session_end (bb_run_fork_ld argv ldpath w).
Proof.
  intros Hinv.
  destruct (decide (hd (-1) (fork_q (os w)) = 0)) as [H0|H0].
  - destruct (check_handler_session w l Hinv) as (w1 & Hcheck & Hinv1 & Hq1).
    rewrite <- Hq1 in H0.
    destruct (fork_child w1 l (proj1 Hinv1) H0) as (w2 & Hfork & Hok2).
    unfold bb_run_fork_ld. erewrite bind_Ret by done.
    erewrite bind_Ret by done. rewrite decide_True by done.
    unfold setenv. erewrite bind_Ret by reflexivity.
    apply session_end_bind.
    pose proof (bb_run_exec_session argv
                  (emit (SysSetenv "LD_LIBRARY_PATH" ldpath 1) w2) l) as H.
    destruct (bb_run_exec argv _); try done; apply H;
      by apply (registry_ok_frame w2).
  - rewrite (bb_run_fork_ld_parent_aux _ _ _ H0). by eapply bb_run_fork_session.
Qed.

Lemma bb_run_fork_wait_session argv w l :
  session_inv w l → session_end (bb_run_fork_wait argv w).
Proof.
  intros Hinv.
  destruct (check_handler_session w l Hinv) as (w1 & Hcheck & Hinv1 & Hq1).
  unfold bb_run_fork_wait. erewrite bind_Ret by done.
  destruct (decide (hd (-1) (fork_q (os w1)) = 0)) as [H0|H0].
  - destruct (fork_child w1 l (proj1 Hinv1) H0) as (w2 & Hfork & Hok2).
    erewrite bind_Ret by done. rewrite decide_True by done.
    by eapply bb_run_exec_session.
  - destruct (fork_session w1 l Hinv1 H0) as (w2 & Hfork & Hinv2 & Hkid).
    erewrite bind_Ret by done. rewrite decide_False by done.
    destruct (decide (hd (-1) (fork_q (os w1)) > 0)) as [Hpos|Hneg].
    + destruct (register_session argv _ w2 l Hinv2 Hpos (Hkid Hpos))
        as (w' & Hrun & Hinv').
      munfold. unfold mbind, M_bind in Hrun.
      destruct (bb_log _ _ _ w2) as [[] w3| | | | |]; try done.
      rewrite Hrun.
      change (session_end (bb_run_fork_wait_loop (S (length (sched (os w'))))
                             (hd (-1) (fork_q (os w1))) w')).
      eapply bb_run_fork_wait_loop_session; [done|lia].
    + unfold bb_log. simpl. exists l. by apply session_inv_emit.
Qed.

Lemma run_call_session c w l :
  session_inv w l → session_end (run_call c w).
Proof.
  intros Hinv. pose proof Hinv as (Hok & _). destruct c; cbn [run_call].
  - apply session_end_bind.
    pose proof (bb_run_fork_session argv w l Hinv) as H.
    by destruct (bb_run_fork argv w).
  - apply session_end_bind.
    pose proof (bb_run_fork_ld_session argv ldpath w l Hinv) as H.
    by destruct (bb_run_fork_ld argv ldpath w).
  - by eapply bb_run_fork_wait_session.
  - erewrite bind_Ret by (by apply bb_is_running_ok). by exists l.
  - rewrite (bb_stop_signals_tracked_once_aux w l proc Hok).
    destruct (decide (proc ∈ l)); exists l; [by apply session_inv_emit|done].
  - unfold bb_stop_wait. erewrite bind_Ret by reflexivity.
    eapply bb_stop_wait_loop_session; [done|lia].
  - pose proof (usleep_session usec w l Hinv) as H.
    destruct (usleep usec w); simpl in *; try done.
    + by destruct H.
    + by exists l.
Qed.

(** A session of any calls but [bb_stop_all], begun by a fresh process,
    ends as [session_end] says. *)
Lemma run_calls_session cs w l :
  session_inv w l → session_end (run_calls cs w).
Proof.
  revert w l. induction cs as [|c cs IH]; intros w l Hinv; simpl.
  - by exists l.
  - apply session_end_bind.
    pose proof (run_call_session c w l Hinv) as H.
    destruct (run_call c w) as [[] w1| | | | |]; try done.
    destruct H as (l1 & Hinv1). by eapply IH.
Qed.

Lemma session_inv_boot o : session_inv (boot o) [].
Proof.
  unfold session_inv.
  split_and!; try done; try (by left); try apply registry_ok_boot;
    intros p Hp; by apply not_elem_of_nil in Hp.
Qed.

(** X18: the handler is installed once.  Whenever a session of a fresh
    process (any calls of the launch functions, [bb_is_running], [bb_stop]
    and [bb_stop_wait], asleep in between or not) is back at its caller, or
    asleep, [sigaction] has been called at most once, for SIGCHLD, and
    exactly if [handler_set] is 1; [handler_set] is 0 or 1. *)
Theorem sigaction_called_at_most_once (cs : list api_call) (o : os_state) (w : world) :
  run_calls cs (boot o) = Ret tt w ∨ run_calls cs (boot o) = Waiting w →
  (handler_set w = 0 ∧ sigactions (trace w) = []) ∨
  (handler_set w = 1 ∧ sigactions (trace w) = [SIGCHLD] ∧
   sa_sigchld (os w) = true).
Proof.
  intros Hrun.
  pose proof (run_calls_session cs (boot o) [] (session_inv_boot o)) as H.
  assert (∃ l, session_inv w l) as (l & _ & _ & _ & Hhs & Hsa & Htr).
  { by destruct Hrun as [Hrun|Hrun]; rewrite Hrun in H. }
  destruct Hhs as [H0|H1].
  - left. by rewrite decide_True in Htr.
  - right. rewrite decide_False in Htr by lia. auto.
Qed.

Lemma sigaction_called_at_most_once_witness :
  let o := mk_os false [] [] [] [1001; -1; 1002] None in
  let cs := [CallFork ["sleep"; "2"]; CallForkWait ["sleep"; "3"];
             CallForkLd ["sleep"; "4"] "/usr/lib"] in
  ∃ w, (run_calls cs (boot o) = Ret tt w ∨ run_calls cs (boot o) = Waiting w) ∧
       forks (trace w) = 3%nat ∧
       ((handler_set w = 0 ∧ sigactions (trace w) = []) ∨
        (handler_set w = 1 ∧ sigactions (trace w) = [SIGCHLD] ∧
         sa_sigchld (os w) = true)).
Proof.
  intros o cs.
  assert (∃ w, run_calls cs (boot o) = Ret tt w ∧ forks (trace w) = 3%nat)
    as (w & Hrun & Hf).
  { eexists. split; by vm_compute. }
  exists w. split; [by left|]. split; [exact Hf|].
  exact (sigaction_called_at_most_once cs o w (or_introl Hrun)).
Defined.

(** X19: reaping a child that the registry does not track leaves the
    registry alone: the handler collects the child, logs its PID, and that
    is all. *)
Theorem childsig_handler_untracked_child (w : world) (l : list Z) (z : Z) (zs : list Z) :
  registry_ok w l → zombies (os w) = z :: zs → z ∉ l →
  childsig_handler SIGCHLD w
  = Ret tt (emit (Log LOG_DEBUG MsgTerminated [ArgInt z])
              (emit (SysWait z) (set_os (set_zombies zs (os w)) w))).
Proof.
  intros Hok Hz Hnot. rewrite (childsig_handler_zombie w z zs Hz).
  set (w2 := emit _ _).
  assert (registry_ok w2 l) as Hok2 by by apply (registry_ok_frame w).
  destruct (pidlist_remove_ok w2 l z Hok2) as (w' & Hrun & Hout & _).
  by rewrite Hrun, (Hout Hnot).
Qed.

Lemma childsig_handler_untracked_child_witness :
  let w := set_os (mk_os true [1001] [77] [] [] None) (one_child []) in
  registry_ok w [1001] ∧ zombies (os w) = [77] ∧ (77 ∉ [1001]) ∧
  childsig_handler SIGCHLD w
  = Ret tt (emit (Log LOG_DEBUG MsgTerminated [ArgInt 77])
              (emit (SysWait 77) (set_os (set_zombies [] (os w)) w))).
Proof.
  intros w.
  assert (registry_ok w [1001]) as Hok.
  { apply (bool_decide_unpack _). vm_compute. exact I. }
  assert (77 ∉ [1001]) as Hnot.
  { apply (bool_decide_unpack _). vm_compute. exact I. }
  split; [exact Hok|]. split; [reflexivity|]. split; [exact Hnot|].
  exact (childsig_handler_untracked_child w [1001] 77 [] Hok eq_refl Hnot).
Defined.

(** ** The attempts of [bb_stop_wait] *)

Lemma usleep_stop_events usec w :
  stop_events (trace (world_of (usleep usec w)))
  = SysUsleep usec :: stop_events (trace w).
Proof.
  unfold usleep. rewrite world_of_bind. cbn [modify]. rewrite world_of_bind.
  cbn [gets].
  apply (usleep_run_view stop_events (λ _ _ _ _, eq_refl) (λ _ _, eq_refl)).
Qed.

Lemma attempts_cons proc (i len : Z) :
  0 < len →
  flat_map (attempt_events proc) (seqZ i len)
  = attempt_events proc i ++ flat_map (attempt_events proc) (seqZ (i + 1) (len - 1)).
Proof.
  intros Hlen. rewrite seqZ_cons by done.
  replace (Z.succ i) with (i + 1) by lia.
  by replace (Z.pred len) with (len - 1) by lia.
Qed.

(** Whatever the state and the schedule: entered with counter [i], the
    loop makes the attempts [i + 1], [i + 2], ... one after the other, each
    a signal of the policy followed by a sleep, and nothing else of the
    kind. *)
Lemma bb_stop_wait_loop_attempts proc fuel i w :
  0 ≤ i ≤ INT_MAX →
  ∃ n : nat,
    i + Z.of_nat n ≤ INT_MAX ∧
    reverse (stop_events (trace (world_of (bb_stop_wait_loop fuel proc i w))))
    = reverse (stop_events (trace w))
      ++ flat_map (attempt_events proc) (seqZ (i + 1) (Z.of_nat n)).
Proof.
  revert i w. induction fuel as [|fuel IH]; intros i w Hi;
    cbn [bb_stop_wait_loop]; rewrite world_of_bind;
    pose proof (bb_is_running_same proc w) as Hsame;
    destruct (bb_is_running proc w) as [r w1| | | | |]; simpl in Hsame;
    subst; try (exists O; split; [lia|]; simpl; by rewrite app_nil_r).
  - exists O. split; [lia|]. destruct (decide (r = 0)); simpl; by rewrite app_nil_r.
  - destruct (decide (r = 0));
      [exists O; split; [lia|]; simpl; by rewrite app_nil_r|].
    destruct (decide (i = INT_MAX)) as [->|Hne].
    { exists O. split; [lia|]. unfold incr. rewrite decide_True by done.
      simpl. by rewrite app_nil_r. }
    set (w2 := emit (SysKill proc (escalation (i + 1))) w).
    assert ((incr i ≫= λ i0, (if decide (i0 < 10) then kill proc SIGTERM
                              else kill proc SIGKILL) ≫= λ _,
                             usleep 1000000 ≫= λ _, bb_stop_wait_loop fuel proc i0) w
            = (usleep 1000000 ≫= λ _, bb_stop_wait_loop fuel proc (i + 1)) w2)
      as ->.
    { unfold incr. rewrite decide_False by done.
      erewrite bind_Ret by reflexivity. unfold escalation, kill in *. subst w2.
      destruct (decide (i + 1 < 10)), (decide (i + 1 ≤ 9)); try lia;
        by erewrite bind_Ret by reflexivity. }
    rewrite world_of_bind.
    pose proof (usleep_stop_events 1000000 w2) as Hsleep.
    assert (stop_events (trace w2)
            = SysKill proc (escalation (i + 1)) :: stop_events (trace w)) as Hk2
      by done.
    assert (∀ w3, stop_events (trace w3) = SysUsleep 1000000 :: stop_events (trace w2) →
              reverse (stop_events (trace w3))
              = reverse (stop_events (trace w))
                ++ flat_map (attempt_events proc) (seqZ (i + 1) (Z.of_nat 1))) as Hone.
    { intros w3 ->. rewrite Hk2, !reverse_cons, <- !app_assoc. done. }
    destruct (usleep 1000000 w2) as [[] w3| | | | |]; simpl in Hsleep;
      try (exists 1%nat; split; [lia|by apply Hone]).
    destruct (IH (i + 1) w3) as (m & Hm & Hev); [lia|]. exists (S m).
    split; [lia|].
    rewrite Hev, Hsleep, ?Hk2, !reverse_cons, <- !app_assoc. f_equal.
    rewrite (attempts_cons proc (i + 1)) by lia.
    by replace (Z.of_nat (S m) - 1) with (Z.of_nat m) by lia.
Qed.

Lemma usleep_Tick usec evs w :
  sched (os w) = Tick :: evs →
  usleep usec w
  = Ret tt (set_os (set_sched evs (os w)) (emit (SysUsleep usec) w)).
Proof.
  intros Hs. unfold usleep. erewrite bind_Ret by reflexivity.
  erewrite bind_Ret by reflexivity. simpl. by rewrite Hs.
Qed.

Lemma usleep_nil usec w :
  sched (os w) = [] →
  usleep usec w
  = Waiting (set_os (set_sched [] (os w)) (emit (SysUsleep usec) w)).
Proof.
  intros Hs. unfold usleep. erewrite bind_Ret by reflexivity.
  erewrite bind_Ret by reflexivity. simpl. by rewrite Hs.
Qed.

(** A round of the loop for a tracked PID. *)
Lemma bb_stop_wait_loop_tracked proc l fuel i w :
  registry_ok w l → proc ∈ l →
  bb_stop_wait_loop (S fuel) proc i w
  = if decide (i = INT_MAX) then Fault IntOverflow w
    else (usleep 1000000 ≫= λ _, bb_stop_wait_loop fuel proc (i + 1))
           (emit (SysKill proc (escalation (i + 1))) w).
Proof.
  intros Hok Hin. cbn [bb_stop_wait_loop].
  erewrite bind_Ret by (by apply bb_is_running_ok).
  rewrite (decide_True (P := proc ∈ l)) by done.
  rewrite (decide_False (P := 1 = 0)) by done.
  unfold incr. destruct (decide (i = INT_MAX)) as [->|Hne]; [done|].
  erewrite bind_Ret by reflexivity. unfold escalation, kill.
  destruct (decide (i + 1 < 10)), (decide (i + 1 ≤ 9)); try lia;
    by erewrite bind_Ret by reflexivity.
Qed.

(** A tracked process that outlives [m] sleeps: the loop makes an attempt
    in every round, [m + 1] of them, and is then asleep; unless the counter
    gets to [INT_MAX] first, where the next [++i] is an overflow. *)
Lemma bb_stop_wait_loop_ticks proc l (m : nat) fuel i w :
  registry_ok w l → proc ∈ l →
  sched (os w) = replicate m Tick → (m < fuel)%nat → 0 ≤ i ≤ INT_MAX →
  (if decide (i + Z.of_nat m < INT_MAX)
   then ∃ w', bb_stop_wait_loop fuel proc i w = Waiting w'
   else ∃ w', bb_stop_wait_loop fuel proc i w = Fault IntOverflow w') ∧
  reverse (stop_events (trace (world_of (bb_stop_wait_loop fuel proc i w))))
  = reverse (stop_events (trace w))
    ++ flat_map (attempt_events proc)
         (seqZ (i + 1) (Z.min (Z.of_nat m + 1) (INT_MAX - i))).
Proof.
  revert fuel i w. induction m as [|m IH]; intros fuel i w Hok Hin Hs Hfuel Hi.
  - destruct fuel as [|fuel]; [lia|].
    rewrite (bb_stop_wait_loop_tracked proc l fuel i w Hok Hin).
    destruct (decide (i = INT_MAX)) as [->|Hne].
    + rewrite decide_False by lia. split; [by eexists|].
      rewrite Z.min_r by lia. simpl. by rewrite app_nil_r.
    + rewrite decide_True by lia.
      unfold mbind, M_bind. rewrite usleep_nil by done.
      split; [by eexists|]. rewrite Z.min_l by lia. simpl.
      by rewrite !reverse_cons, <- !app_assoc.
  - destruct fuel as [|fuel]; [lia|].
    rewrite (bb_stop_wait_loop_tracked proc l fuel i w Hok Hin).
    destruct (decide (i = INT_MAX)) as [->|Hne].
    + rewrite decide_False by lia. split; [by eexists|].
      rewrite Z.min_r by lia. simpl. by rewrite app_nil_r.
    + erewrite bind_Ret by (by apply (usleep_Tick _ (replicate m Tick))).
      set (w3 := set_os _ _).
      assert (registry_ok w3 l) as Hok3 by by apply (registry_ok_frame w).
      destruct (IH fuel (i + 1) w3 Hok3 Hin eq_refl) as (Hout & Hev); [lia|lia|].
      split.
      * destruct (decide (i + 1 + Z.of_nat m < INT_MAX)),
          (decide (i + Z.of_nat (S m) < INT_MAX)); try lia; done.
      * rewrite Hev. subst w3. simpl.
        rewrite !reverse_cons, <- !app_assoc. f_equal.
        rewrite (attempts_cons proc (i + 1)) by lia.
        by replace (Z.min (Z.of_nat (S m) + 1) (INT_MAX - i) - 1)
          with (Z.min (Z.of_nat m + 1) (INT_MAX - (i + 1))) by lia.
Qed.

(** C4: in every state and under every schedule, what one call of
    [bb_stop_wait] sends and sleeps is, in this order, attempt 1, attempt
    2, ..., attempt n for some n: each attempt a signal to [proc] followed
    by a sleep of a second, the signal SIGTERM for the attempts 1 to 9 and
    SIGKILL from attempt 10 on.  And the attempts are the rounds of the
    loop: for a tracked process that outlives [m] sleeps the call makes
    exactly [m + 1] attempts and is then asleep.  The attempt counter is an
    [int]: there is no attempt after attempt [INT_MAX], where the next
    increment overflows. *)
Theorem bb_stop_wait_escalation (proc : Z) (w : world) :
  (∃ n : nat,
     Z.of_nat n ≤ INT_MAX ∧
     reverse (stop_events (trace (world_of (bb_stop_wait proc w))))
     = reverse (stop_events (trace w))
       ++ flat_map (attempt_events proc) (seqZ 1 (Z.of_nat n))) ∧
  (∀ l (m : nat),
     registry_ok w l → proc ∈ l → sched (os w) = replicate m Tick →
     (if decide (Z.of_nat m < INT_MAX)
      then ∃ w', bb_stop_wait proc w = Waiting w'
      else ∃ w', bb_stop_wait proc w = Fault IntOverflow w') ∧
     reverse (stop_events (trace (world_of (bb_stop_wait proc w))))
     = reverse (stop_events (trace w))
       ++ flat_map (attempt_events proc)
            (seqZ 1 (Z.min (Z.of_nat m + 1) INT_MAX))).
Proof.
  split.
  - unfold bb_stop_wait. rewrite world_of_bind. cbn [gets world_of].
    destruct (bb_stop_wait_loop_attempts proc (S (length (sched (os w)))) 0 w)
      as (n & Hn & Hev); [unfold INT_MAX; lia|].
    exists n. split; [lia|exact Hev].
  - intros l m Hok Hin Hs.
    assert (bb_stop_wait proc w = bb_stop_wait_loop (S m) proc 0 w) as ->.
    { unfold bb_stop_wait. erewrite bind_Ret by reflexivity.
      by rewrite Hs, length_replicate. }
    destruct (bb_stop_wait_loop_ticks proc l m (S m) 0 w Hok Hin Hs)
      as (Hout & Hev); [lia|unfold INT_MAX; lia|].
    split.
    + destruct (decide (0 + Z.of_nat m < INT_MAX)),
        (decide (Z.of_nat m < INT_MAX)); try lia; done.
    + exact Hev.
Qed.

Lemma bb_stop_wait_escalation_witness :
  let w := one_child (replicate 11 Tick) in
  registry_ok w [1001] ∧ 1001 ∈ [1001] ∧ sched (os w) = replicate 11 Tick ∧
  (∃ w', bb_stop_wait 1001 w = Waiting w') ∧
  reverse (stop_events (trace (world_of (bb_stop_wait 1001 w))))
  = reverse (stop_events (trace w))
    ++ flat_map (attempt_events 1001) (seqZ 1 12).
Proof.
  intros w.
  assert (registry_ok w [1001]) as Hok.
  { apply (bool_decide_unpack _). vm_compute. exact I. }
  assert (1001 ∈ [1001]) as Hin by left.
  split; [exact Hok|]. split; [exact Hin|]. split; [reflexivity|].
  destruct (bb_stop_wait_escalation 1001 w) as (_ & H).
  destruct (H [1001] 11%nat Hok Hin eq_refl) as (Hout & Hev).
  split; [exact Hout|exact Hev].
Defined.
